(** * Beispielprojekt: the physics and collision core of the side-scroller

    A shallow embedding of [Beispielprojekt/Beispielprojekt.cpp]: the
    classes [Objekt], [Platform], [Obstacle], [Player] and [GameWindow],
    the free function [rects_overlap], and the two [update] methods.

    Numbers.  The C++ fields are [double]s.  Every constant of the program
    (0.5, -10, 3, 50, 100, 15, 2, the level layout, the world size) is a
    multiple of 1/2 of small magnitude, and the program only adds and
    subtracts (the two divisions, 50 / 2 and 100 / 2, are exact).  The
    embedding therefore takes [double] to be the rationals [Q] with exact
    arithmetic; NaN, infinities and rounding are outside the model.
    [reachable_doubles_exact] below shows that in every state the game
    reaches all stored doubles are multiples of 1/2 of magnitude at most
    4096, on which binary64 addition and subtraction are exact, so that on
    those states the embedding computes what the program computes.
    Computed coordinates are compared with [==] ([Qeq]); fields that the
    code assigns from a literal or copies from another field are compared
    with [=].

    [int jumps_available] is a [Z]: its only decrement is guarded by
    [jumps_available > 0], so no wrap-around can occur.  The [unsigned long]
    millisecond stamps are [Z] with the wrap-around of unsigned subtraction
    written out in [ulong_sub]. *)

From Stdlib Require Import QArith ZArith List Bool Lia Lqa Permutation.
Import ListNotations.

Open Scope Q_scope.

(* ================================================================== *)
(** * Part I: the embedding *)
(* ================================================================== *)

(** ** Doubles and their comparisons *)

Definition double : Set := Q.

(** [a <= b], [a < b], [a >= b], [a > b] as the C++ expressions of type
    [bool]. *)
Definition dle (a b : double) : bool := Qle_bool a b.
Definition dlt (a b : double) : bool := negb (Qle_bool b a).
Definition dge (a b : double) : bool := dle b a.
Definition dgt (a b : double) : bool := dlt b a.

(** ** [unsigned long] *)

(** Width of [unsigned long]: 32 bits where the project is built with
    MSVC (it links Gosu through [Gosu/AutoLink.hpp]), 64 bits on LP64
    systems.  The proofs of the theorems below do not use the value, and
    the instances only take differences [a - b] of clock readings with
    [0 <= b <= a < 2 ^ 32], which are the same at either width. *)
Definition ulong_bits : Z := 32%Z.
Definition ulong_modulus : Z := (2 ^ ulong_bits)%Z.

(** [a - b] on [unsigned long]. *)
Definition ulong_sub (a b : Z) : Z := ((a - b) mod ulong_modulus)%Z.

(** ** class Objekt *)

Record Objekt : Set := mkObjekt {
  x : double;
  y : double;
  width : double;
  height : double
}.

(** ** class Platform : public Objekt *)

Inductive Color : Set := GRAY | AQUA | RED | GREEN.

Record Platform : Set := mkPlatform {
  Platform_base :> Objekt;
  color : Color
}.

(** [Platform(x, y, width, height, color = GRAY)]. *)
Definition Platform_new (px py pw ph : double) (c : Color) : Platform :=
  mkPlatform (mkObjekt px py pw ph) c.

(** ** class Obstacle : public Objekt *)

Record Obstacle : Set := mkObstacle {
  Obstacle_base :> Objekt
}.

(** [Obstacle(x, y, size) : Objekt(x, y, size, size)]. *)
Definition Obstacle_new (ox oy size : double) : Obstacle :=
  mkObstacle (mkObjekt ox oy size size).

(** ** Input *)

Inductive Key : Set := KB_LEFT | KB_RIGHT | KB_UP | KB_DOWN.

(** [Gosu::Input] is consumed only through [input.down(key)]. *)
Definition Input : Set := Key -> bool.
Definition down (input : Input) (k : Key) : bool := input k.

Definition no_keys : Input := fun _ => false.
Definition only (k : Key) : Input :=
  fun k' =>
    match k, k' with
    | KB_LEFT, KB_LEFT | KB_RIGHT, KB_RIGHT
    | KB_UP, KB_UP | KB_DOWN, KB_DOWN => true
    | _, _ => false
    end.

(** ** class Player : public Objekt *)

(** [world_width] and [world_height] are pointers to the [const double]
    members of the window; they are modelled by the values pointed to. *)
Record Player : Set := mkPlayer {
  Player_base :> Objekt;
  velocity_x : double;
  velocity_y : double;
  on_ground : bool;
  world_width : double;
  world_height : double;
  jumps_available : Z;
  spawn_x : double;
  spawn_y : double;
  jump_in_progress : bool
}.

(** [Player(x, y, ww, wh)] with the default member initialisers. *)
Definition Player_new (px py ww wh : double) : Player :=
  {| Player_base := mkObjekt px py 50 50;
     velocity_x := 0;
     velocity_y := 0;
     on_ground := false;
     world_width := ww;
     world_height := wh;
     jumps_available := 2;
     spawn_x := px;
     spawn_y := py;
     jump_in_progress := false |}.

(** Field assignments. *)
Definition set_x (p : Player) (v : double) : Player :=
  mkPlayer (mkObjekt v (y p) (width p) (height p))
    (velocity_x p) (velocity_y p) (on_ground p) (world_width p)
    (world_height p) (jumps_available p) (spawn_x p) (spawn_y p)
    (jump_in_progress p).

Definition set_y (p : Player) (v : double) : Player :=
  mkPlayer (mkObjekt (x p) v (width p) (height p))
    (velocity_x p) (velocity_y p) (on_ground p) (world_width p)
    (world_height p) (jumps_available p) (spawn_x p) (spawn_y p)
    (jump_in_progress p).

Definition set_velocity_x (p : Player) (v : double) : Player :=
  mkPlayer (Player_base p)
    v (velocity_y p) (on_ground p) (world_width p)
    (world_height p) (jumps_available p) (spawn_x p) (spawn_y p)
    (jump_in_progress p).

Definition set_velocity_y (p : Player) (v : double) : Player :=
  mkPlayer (Player_base p)
    (velocity_x p) v (on_ground p) (world_width p)
    (world_height p) (jumps_available p) (spawn_x p) (spawn_y p)
    (jump_in_progress p).

Definition set_on_ground (p : Player) (b : bool) : Player :=
  mkPlayer (Player_base p)
    (velocity_x p) (velocity_y p) b (world_width p)
    (world_height p) (jumps_available p) (spawn_x p) (spawn_y p)
    (jump_in_progress p).

Definition set_jumps_available (p : Player) (n : Z) : Player :=
  mkPlayer (Player_base p)
    (velocity_x p) (velocity_y p) (on_ground p) (world_width p)
    (world_height p) n (spawn_x p) (spawn_y p)
    (jump_in_progress p).

Definition set_jump_in_progress (p : Player) (b : bool) : Player :=
  mkPlayer (Player_base p)
    (velocity_x p) (velocity_y p) (on_ground p) (world_width p)
    (world_height p) (jumps_available p) (spawn_x p) (spawn_y p)
    b.

(** *** Player::update *)

Definition gravity : double := 1 # 2.
Definition jump_strength : double := - (10).
Definition move_speed : double := 3.

(** Lines 69-71: the horizontal velocity is recomputed from the keys. *)
Definition update_move (input : Input) (p : Player) : Player :=
  let p := set_velocity_x p 0 in
  let p := if down input KB_LEFT
           then set_velocity_x p (velocity_x p - move_speed) else p in
  let p := if down input KB_RIGHT
           then set_velocity_x p (velocity_x p + move_speed) else p in
  p.

(** The condition of the inner [if] of the double jump logic. *)
Definition can_jump (p : Player) : bool :=
  (0 <? jumps_available p)%Z && negb (jump_in_progress p).

(** Lines 74-84: double jump logic. *)
Definition update_jump (input : Input) (p : Player) : Player :=
  if down input KB_UP then
    if can_jump p then
      let p := set_velocity_y p jump_strength in
      let p := set_on_ground p false in
      let p := set_jumps_available p (jumps_available p - 1)%Z in
      let p := set_jump_in_progress p true in
      p
    else p
  else set_jump_in_progress p false.

(** Line 86. *)
Definition update_gravity (p : Player) : Player :=
  set_velocity_y p (velocity_y p + gravity).

(** Lines 69-86: the player when the collision checks start. *)
Definition update_velocity (input : Input) (p : Player) : Player :=
  update_gravity (update_jump input (update_move input p)).

(** The locals of [update] that the platform loop reads and writes,
    together with [this]. *)
Record Frame : Set := mkFrame {
  self : Player;
  next_x : double;
  next_y : double;
  on_any_platform : bool
}.

(** Lines 88-90. *)
Definition frame_init (p : Player) : Frame :=
  {| self := p;
     next_x := x p + velocity_x p;
     next_y := y p + velocity_y p;
     on_any_platform := false |}.

(** Lines 93-95: static platforms first, then the temporary one. *)
Definition all_platforms (platforms : list Platform)
    (temp_platform : option Platform) : list Platform :=
  platforms ++ match temp_platform with
               | Some t => [t]
               | None => []
               end.

Definition within_x (f : Frame) (plat : Platform) : bool :=
  dgt (next_x f + width (self f)) (x plat)
  && dlt (next_x f) (x plat + width plat).

Definition falling_onto (f : Frame) (plat : Platform) : bool :=
  dle (y (self f) + height (self f)) (y plat)
  && dge (next_y f + height (self f)) (y plat).

(** Lines 98-104: the body of the platform loop. *)
Definition land_on (f : Frame) (plat : Platform) : Frame :=
  if within_x f plat && falling_onto f plat && dge (velocity_y (self f)) 0
  then {| self := set_velocity_y (self f) 0;
          next_x := next_x f;
          next_y := y plat - height (self f);
          on_any_platform := true |}
  else f.

(** Lines 97-105. *)
Definition resolve_platforms (plats : list Platform) (f : Frame) : Frame :=
  fold_left land_on plats f.

(** Lines 107-109. *)
Definition commit (f : Frame) : Player :=
  let p := self f in
  let p := set_x p (next_x f) in
  let p := set_y p (next_y f) in
  let p := set_on_ground p (on_any_platform f) in
  p.

(** Lines 111-119: world borders, one function per statement. *)
Definition border_left (p : Player) : Player :=
  if dlt (x p) 0 then set_x p 0 else p.

Definition border_right (p : Player) : Player :=
  if dgt (x p + width p) (world_width p)
  then set_x p (world_width p - width p) else p.

Definition border_top (p : Player) : Player :=
  if dlt (y p) 0 then set_y p 0 else p.

Definition border_bottom (p : Player) : Player :=
  if dgt (y p + height p) (world_height p)
  then
    let p := set_y p (world_height p - height p) in
    let p := set_velocity_y p 0 in
    let p := set_on_ground p true in
    p
  else p.

Definition world_borders (p : Player) : Player :=
  border_bottom (border_top (border_right (border_left p))).

(** Lines 121-122. *)
Definition refill_jumps (p : Player) : Player :=
  if on_ground p then set_jumps_available p 2%Z else p.

(** The player after the platform loop, before the positions are
    committed. *)
Definition update_collide (input : Input) (platforms : list Platform)
    (temp_platform : option Platform) (p : Player) : Frame :=
  resolve_platforms (all_platforms platforms temp_platform)
    (frame_init (update_velocity input p)).

(** [void Player::update(input, platforms, temp_platform)]. *)
Definition Player_update (input : Input) (platforms : list Platform)
    (temp_platform : option Platform) (p : Player) : Player :=
  refill_jumps
    (world_borders
       (commit (update_collide input platforms temp_platform p))).

(** [void Player::die()]. *)
Definition die (p : Player) : Player :=
  let p := set_x p (spawn_x p) in
  let p := set_y p (spawn_y p) in
  let p := set_velocity_x p 0 in
  let p := set_velocity_y p 0 in
  let p := set_jumps_available p 2%Z in
  p.

(** ** rects_overlap *)

Definition rects_overlap (a b : Objekt) : bool :=
  dlt (x a) (x b + width b)
  && dgt (x a + width a) (x b)
  && dlt (y a) (y b + height b)
  && dgt (y a + height a) (y b).

(** ** class GameWindow *)

(** [down_pressed_last_frame] is the function-local [static] of
    [GameWindow::update]; it lives as long as the window does.  The
    [const] members [platform_cooldown], [world_width] and [world_height]
    are the definitions below. *)
Record GameWindow : Set := mkGameWindow {
  platforms : list Platform;
  obstacles : list Obstacle;
  player : Player;
  temp_platform : option Platform;
  temp_platform_created : Z;
  temp_platform_last_placed : Z;
  down_pressed_last_frame : bool
}.

Definition platform_cooldown : Z := 5000%Z.
Definition GameWindow_world_width : double := 2000.
Definition GameWindow_world_height : double := 1000.

(** The level built by the constructor. *)
Definition level_platforms : list Platform :=
  [ Platform_new 0 950 2000 50 GRAY;
    Platform_new 300 800 250 30 GRAY;
    Platform_new 700 700 250 30 GRAY;
    Platform_new 1300 850 300 25 GRAY;
    Platform_new 1700 600 200 30 GRAY;
    Platform_new 1800 400 120 30 GRAY;
    Platform_new 100 650 180 20 GRAY ].

Definition level_obstacles : list Obstacle :=
  [ Obstacle_new 500 920 40;
    Obstacle_new 900 670 40;
    Obstacle_new 1350 820 40;
    Obstacle_new 1800 570 40 ].

(** [GameWindow::GameWindow()]. *)
Definition GameWindow_new : GameWindow :=
  {| platforms := level_platforms;
     obstacles := level_obstacles;
     player := Player_new 150 100 GameWindow_world_width
                 GameWindow_world_height;
     temp_platform := None;
     temp_platform_created := 0%Z;
     temp_platform_last_placed := 0%Z;
     down_pressed_last_frame := false |}.

(** [Gosu::milliseconds()] is read at three places of one [update]: in the
    cooldown test (line 184), when the stamps are taken (line 192) and in
    the expiry test (line 203).  A tick receives one reading per place. *)
Record Millis : Set := mkMillis {
  ms_cooldown : Z;
  ms_placed : Z;
  ms_expiry : Z
}.

(** All three readings equal. *)
Definition at_ms (t : Z) : Millis := mkMillis t t t.

(** Line 184. *)
Definition on_cooldown (now : Z) (g : GameWindow) : bool :=
  (ulong_sub now (temp_platform_last_placed g) <? platform_cooldown)%Z.

Definition has_temp_platform (g : GameWindow) : bool :=
  match temp_platform g with
  | Some _ => true
  | None => false
  end.

(** Lines 186-193: the platform that is placed, and the stamps. *)
Definition new_temp_platform (p : Player) : Platform :=
  let w : double := 100 in
  let h : double := 15 in
  let platform_x := x p + width p / 2 - w / 2 in
  let platform_y := y p + height p + 2 in
  Platform_new platform_x platform_y w h AQUA.

Definition place_now (clock : Millis) (g : GameWindow) : GameWindow :=
  {| platforms := platforms g;
     obstacles := obstacles g;
     player := player g;
     temp_platform := Some (new_temp_platform (player g));
     temp_platform_created := ms_placed clock;
     temp_platform_last_placed := ms_placed clock;
     down_pressed_last_frame := down_pressed_last_frame g |}.

Definition set_down_pressed_last_frame (g : GameWindow) (b : bool)
    : GameWindow :=
  {| platforms := platforms g;
     obstacles := obstacles g;
     player := player g;
     temp_platform := temp_platform g;
     temp_platform_created := temp_platform_created g;
     temp_platform_last_placed := temp_platform_last_placed g;
     down_pressed_last_frame := b |}.

(** Lines 182-200: platform cooldown/creation. *)
Definition place_platform (input : Input) (clock : Millis)
    (g : GameWindow) : GameWindow :=
  if down input KB_DOWN then
    let g :=
      if negb (down_pressed_last_frame g) then
        if negb (has_temp_platform g)
           && negb (on_cooldown (ms_cooldown clock) g)
        then place_now clock g
        else g
      else g in
    set_down_pressed_last_frame g true
  else set_down_pressed_last_frame g false.

(** Lines 203-205: remove temp platform after 5 seconds. *)
Definition expire_platform (clock : Millis) (g : GameWindow) : GameWindow :=
  if has_temp_platform g
     && (5000 <? ulong_sub (ms_expiry clock) (temp_platform_created g))%Z
  then {| platforms := platforms g;
          obstacles := obstacles g;
          player := player g;
          temp_platform := None;
          temp_platform_created := temp_platform_created g;
          temp_platform_last_placed := temp_platform_last_placed g;
          down_pressed_last_frame := down_pressed_last_frame g |}
  else g.

Definition set_player (g : GameWindow) (p : Player) : GameWindow :=
  {| platforms := platforms g;
     obstacles := obstacles g;
     player := p;
     temp_platform := temp_platform g;
     temp_platform_created := temp_platform_created g;
     temp_platform_last_placed := temp_platform_last_placed g;
     down_pressed_last_frame := down_pressed_last_frame g |}.

(** Line 207. *)
Definition move_player (input : Input) (g : GameWindow) : GameWindow :=
  set_player g
    (Player_update input (platforms g) (temp_platform g) (player g)).

(** Lines 211-213: the body of the obstacle loop. *)
Definition hit (p : Player) (obstacle : Obstacle) : Player :=
  if rects_overlap p obstacle then die p else p.

(** Lines 210-214: obstacle collision. *)
Definition check_obstacles (obs : list Obstacle) (p : Player) : Player :=
  fold_left hit obs p.

Definition obstacle_collision (g : GameWindow) : GameWindow :=
  set_player g (check_obstacles (obstacles g) (player g)).

(** [void GameWindow::update()]. *)
Definition GameWindow_update (input : Input) (clock : Millis)
    (g : GameWindow) : GameWindow :=
  obstacle_collision
    (move_player input
       (expire_platform clock
          (place_platform input clock g))).

(** The player handed to the obstacle loop of a tick. *)
Definition player_before_hazards (input : Input) (clock : Millis)
    (g : GameWindow) : Player :=
  player (move_player input (expire_platform clock
                               (place_platform input clock g))).

(** ** Runs *)

(** One frame of the game: the keys held and the clock readings. *)
Definition Tick : Set := (Input * Millis)%type.

Definition play (g : GameWindow) (ticks : list Tick) : GameWindow :=
  fold_left (fun g t => GameWindow_update (fst t) (snd t) g) ticks g.

(** The states the game can be in between two frames. *)
Inductive reachable : GameWindow -> Prop :=
| reachable_new : reachable GameWindow_new
| reachable_update : forall input clock g,
    reachable g -> reachable (GameWindow_update input clock g).

(** ** Vocabulary of the properties *)

(** The landing test of the platform loop, read on the player [q] that
    enters the loop (after the jump and gravity steps): falling or
    stationary, current bottom at or above the top of [plat], tentative
    bottom at or below it, tentative horizontal range overlapping. *)
Definition passes_landing_test (q : Player) (plat : Platform) : Prop :=
  0 <= velocity_y q
  /\ y q + height q <= y plat
  /\ y plat <= y q + velocity_y q + height q
  /\ x plat < x q + velocity_x q + width q
  /\ x q + velocity_x q < x plat + width plat.

(** The bottom edge of a box. *)
Definition bottom (o : Objekt) : double := y o + height o.

(** The box lies in the world rectangle of the player. *)
Definition inside_world (p : Player) : Prop :=
  0 <= x p /\ x p <= world_width p - width p
  /\ 0 <= y p /\ y p <= world_height p - height p.

Definition jumps_in_range (p : Player) : Prop :=
  (0 <= jumps_available p <= 2)%Z.

(** What [die] leaves behind. *)
Definition respawned (p : Player) : Prop :=
  x p = spawn_x p /\ y p = spawn_y p
  /\ velocity_x p = 0 /\ velocity_y p = 0
  /\ jumps_available p = 2%Z.

(** *** Runs of [Player::update] *)

(** What one call of [Player::update] receives. *)
Record Step : Set := mkStep {
  step_input : Input;
  step_platforms : list Platform;
  step_temp : option Platform
}.

Definition Player_step (p : Player) (s : Step) : Player :=
  Player_update (step_input s) (step_platforms s) (step_temp s) p.

Definition Player_run (p : Player) (steps : list Step) : Player :=
  fold_left Player_step steps p.

Definition jump_released (s : Step) : Prop :=
  down (step_input s) KB_UP = false.

(** No step of the run ends grounded. *)
Fixpoint stays_airborne (p : Player) (steps : list Step) : Prop :=
  match steps with
  | [] => True
  | s :: rest =>
      on_ground (Player_step p s) = false
      /\ stays_airborne (Player_step p s) rest
  end.

(** The jump branch (lines 76-79) is taken by this call. *)
Definition jump_fires (input : Input) (p : Player) : bool :=
  down input KB_UP && can_jump p.


(** *** The concrete landing scenario *)

Definition scenario_platforms : list Platform :=
  [ Platform_new 0 950 2000 50 GRAY ].

Definition scenario_start : Player := Player_new 150 100 2000 1000.

(** The actor after [n] ticks without input. *)
Fixpoint scenario (n : nat) : Player :=
  match n with
  | O => scenario_start
  | S k => Player_update no_keys scenario_platforms None (scenario k)
  end.

(** The tick on which the actor of the scenario lands. *)
Definition landing_tick : nat := 57.

(** *** The transient platform *)

(** The create key goes from not held to held in this frame. *)
Definition rising_edge (input : Input) (g : GameWindow) : bool :=
  down input KB_DOWN && negb (down_pressed_last_frame g).

(** At least [platform_cooldown] ms lie between the stamp of the last
    placement and the reading [now]. *)
Definition cooldown_elapsed (now : Z) (g : GameWindow) : Prop :=
  (platform_cooldown <= ulong_sub now (temp_platform_last_placed g))%Z.

(** The transient part of the snapshot handed to [Player::update]. *)
Definition transient_platforms (g : GameWindow) : list Platform :=
  all_platforms [] (temp_platform g).

(** The create key was held in the last frame of a run; [false] before
    the first frame. *)
Definition create_held_before (ticks : list Tick) : bool :=
  last (map (fun t : Tick => down (fst t) KB_DOWN) ticks) false.

(** The creation step of a frame brings a transient platform into
    existence. *)
Definition platform_appears (input : Input) (clock : Millis)
    (g : GameWindow) : bool :=
  negb (has_temp_platform g)
  && has_temp_platform (place_platform input clock g).

(** The clock reading stamped by the last placement of a run that starts
    in [g]; [none] if the run has no placement. *)
Fixpoint last_placement (g : GameWindow) (ticks : list Tick) (none : Z) : Z :=
  match ticks with
  | [] => none
  | t :: rest =>
      last_placement (GameWindow_update (fst t) (snd t) g) rest
        (if platform_appears (fst t) (snd t) g
         then ms_placed (snd t) else none)
  end.

(** *** A state of the game in which two platforms pass the landing test *)

(** The actor 44 frames after the start of the game, in free fall above
    the ledge [(100, 650, 180, 20)]. *)
Definition falling_player : Player :=
  {| Player_base := mkObjekt 150 595 50 50;
     velocity_x := 0;
     velocity_y := 22;
     on_ground := false;
     world_width := 2000;
     world_height := 1000;
     jumps_available := 2;
     spawn_x := 150;
     spawn_y := 100;
     jump_in_progress := false |}.

Definition ledge : Platform := Platform_new 100 650 180 20 GRAY.

(** Fieldwise equality of players, up to [==] on the doubles. *)
Definition Player_equiv (p q : Player) : Prop :=
  x p == x q /\ y p == y q /\ width p == width q /\ height p == height q
  /\ velocity_x p == velocity_x q /\ velocity_y p == velocity_y q
  /\ on_ground p = on_ground q
  /\ world_width p == world_width q /\ world_height p == world_height q
  /\ jumps_available p = jumps_available q
  /\ spawn_x p == spawn_x q /\ spawn_y p == spawn_y q
  /\ jump_in_progress p = jump_in_progress q.

(** *** The platform loop *)

(** The frame after a landing on [plat]. *)
Definition landed (q : Player) (plat : Platform) : Frame :=
  {| self := set_velocity_y q 0;
     next_x := x q + velocity_x q;
     next_y := y plat - height q;
     on_any_platform := true |}.

(** After a landing on [on], the loop body fires for the platforms that
    pass the landing test and are not lower than [on]. *)
(** The state of the platform loop after the platforms [done]. *)
Inductive loop_state (q : Player) (done : list Platform) : Frame -> Prop :=
| loop_falling :
    (forall plat, In plat done -> ~ passes_landing_test q plat) ->
    loop_state q done (frame_init q)
| loop_landed : forall on,
    In on done ->
    passes_landing_test q on ->
    (forall plat, In plat done -> passes_landing_test q plat ->
                  y on <= y plat) ->
    loop_state q done (landed q on).

(** *** The game *)

(** The constants of the actor of the game. *)
Definition level_player (p : Player) : Prop :=
  width p = 50 /\ height p = 50
  /\ world_width p = GameWindow_world_width
  /\ world_height p = GameWindow_world_height
  /\ spawn_x p = 150 /\ spawn_y p = 100.

(** The spawn point lies in the world. *)
Definition spawn_inside_world (p : Player) : Prop :=
  0 <= spawn_x p /\ spawn_x p <= world_width p - width p
  /\ 0 <= spawn_y p /\ spawn_y p <= world_height p - height p.

Definition game_invariant (g : GameWindow) : Prop :=
  level_player (player g)
  /\ inside_world (player g)
  /\ jumps_in_range (player g)
  /\ platforms g = level_platforms
  /\ obstacles g = level_obstacles.

(** *** Sample states *)

(** The actor at rest on the floor platform, below the start. *)
Definition resting_player : Player :=
  {| Player_base := mkObjekt 150 900 50 50;
     velocity_x := 0;
     velocity_y := 0;
     on_ground := true;
     world_width := 2000;
     world_height := 1000;
     jumps_available := 2;
     spawn_x := 150;
     spawn_y := 100;
     jump_in_progress := false |}.

(** The actor rising just below the upper border of the world. *)
Definition rising_player : Player :=
  {| Player_base := mkObjekt 150 2 50 50;
     velocity_x := 0;
     velocity_y := - (5);
     on_ground := false;
     world_width := 2000;
     world_height := 1000;
     jumps_available := 1;
     spawn_x := 150;
     spawn_y := 100;
     jump_in_progress := true |}.

(** The actor at rest on the floor platform next to the first spike. *)
Definition player_at_spike : Player :=
  {| Player_base := mkObjekt 480 900 50 50;
     velocity_x := 0;
     velocity_y := 0;
     on_ground := true;
     world_width := 2000;
     world_height := 1000;
     jumps_available := 2;
     spawn_x := 150;
     spawn_y := 100;
     jump_in_progress := false |}.

Definition game_with (p : Player) (temp : option Platform)
    (created : Z) : GameWindow :=
  {| platforms := level_platforms;
     obstacles := level_obstacles;
     player := p;
     temp_platform := temp;
     temp_platform_created := created;
     temp_platform_last_placed := created;
     down_pressed_last_frame := false |}.

Definition release_jump : Step := mkStep no_keys scenario_platforms None.




(** *** Exactness of the arithmetic *)

(** A multiple of 1/2. *)
Definition half_integer (v : double) : Prop := exists k : Z, v == k # 2.

(** A multiple of 1/2 of magnitude at most 4096: such a number, and the
    sum or difference of two such numbers, is a binary64 value, so the
    additions and subtractions of the program are exact on them. *)
Definition exact (v : double) : Prop :=
  half_integer v /\ - (4096) <= v /\ v <= 4096.

(** What the motion of the actor maintains: half-integer coordinates and
    velocities, a bounded horizontal velocity, a vertical velocity of at
    least [jump_strength], and a fall that started at or below the upper
    border. *)
Definition kinematic_invariant (p : Player) : Prop :=
  half_integer (x p) /\ half_integer (y p)
  /\ half_integer (velocity_x p) /\ half_integer (velocity_y p)
  /\ - move_speed <= velocity_x p /\ velocity_x p <= move_speed
  /\ jump_strength <= velocity_y p
  /\ (0 <= velocity_y p ->
      velocity_y p * velocity_y p + velocity_y p / 2 <= y p).

Definition exact_platform (t : Platform) : Prop :=
  exact (x t) /\ exact (y t) /\ exact (width t) /\ exact (height t).

Definition exact_player (p : Player) : Prop :=
  exact (x p) /\ exact (y p) /\ exact (width p) /\ exact (height p)
  /\ exact (velocity_x p) /\ exact (velocity_y p)
  /\ exact (world_width p) /\ exact (world_height p)
  /\ exact (spawn_x p) /\ exact (spawn_y p).

Definition exact_game (g : GameWindow) : Prop :=
  exact_player (player g)
  /\ Forall exact_platform (all_platforms (platforms g) (temp_platform g))
  /\ Forall (fun o : Obstacle =>
               exact (x o) /\ exact (y o)
               /\ exact (width o) /\ exact (height o)) (obstacles g).

Definition exact_objekt (o : Objekt) : Prop :=
  exact (x o) /\ exact (y o) /\ exact (width o) /\ exact (height o).

(** The platforms handed to one call of [Player::update]. *)
Definition exact_step (s : Step) : Prop :=
  Forall exact_platform (all_platforms (step_platforms s) (step_temp s)).

(** The transient platform was placed under an actor inside the world. *)
Definition transient_ok (o : option Platform) : Prop :=
  match o with
  | Some t =>
      half_integer (x t) /\ half_integer (y t)
      /\ - (25) <= x t /\ x t <= 1925 /\ 52 <= y t /\ y t <= 1002
      /\ width t = 100 /\ height t = 15
  | None => True
  end.

Definition exactness_invariant (g : GameWindow) : Prop :=
  game_invariant g
  /\ kinematic_invariant (player g)
  /\ transient_ok (temp_platform g).

(** The first platform of the level, which spans the width of the world. *)
Definition floor_platform : Platform := Platform_new 0 950 2000 50 GRAY.

(** *** Placements along a run *)

(** The creation branch (lines 186-193) is taken by this frame. *)
Definition places (input : Input) (clock : Millis) (g : GameWindow) : bool :=
  rising_edge input g
  && negb (has_temp_platform g)
  && negb (on_cooldown (ms_cooldown clock) g).

(** How often the creation branch is taken along a run. *)
Fixpoint placements (g : GameWindow) (ticks : list Tick) : nat :=
  match ticks with
  | [] => 0%nat
  | t :: rest =>
      ((if places (fst t) (snd t) g then 1 else 0)
       + placements (GameWindow_update (fst t) (snd t) g) rest)%nat
  end.

(** The create key is held in a frame. *)
Definition create_held (t : Tick) : Prop := down (fst t) KB_DOWN = true.

(** ** Drawing *)

(** The calls [graphics.draw_rect(x, y, width, height, color, z)] and
    [graphics.draw_triangle(x1, y1, c1, x2, y2, c2, x3, y3, c3, z)]. *)
Inductive Shape : Set :=
| draw_rect (rx ry rw rh : double) (c : Color) (z : double)
| draw_triangle (x1 y1 : double) (c1 : Color) (x2 y2 : double) (c2 : Color)
    (x3 y3 : double) (c3 : Color) (z : double).

(** [Platform::draw]. *)
Definition Platform_draw (t : Platform) : Shape :=
  draw_rect (x t) (y t) (width t) (height t) (color t) 0.

(** [Obstacle::draw]. *)
Definition Obstacle_draw (o : Obstacle) : Shape :=
  draw_triangle
    (x o) (y o + height o) RED
    (x o + width o / 2) (y o) RED
    (x o + width o) (y o + height o) RED
    0.

(** [Player::draw]. *)
Definition Player_draw (p : Player) : Shape :=
  draw_rect (x p) (y p) (width p) (height p) GREEN 0.

(** The corners of a drawn shape. *)
Definition corners (s : Shape) : list (double * double) :=
  match s with
  | draw_rect rx ry rw rh _ _ =>
      [(rx, ry); (rx + rw, ry); (rx, ry + rh); (rx + rw, ry + rh)]
  | draw_triangle x1 y1 _ x2 y2 _ x3 y3 _ _ => [(x1, y1); (x2, y2); (x3, y3)]
  end.

(** [std::min(a, b)] is [(b < a) ? b : a] and [std::max(a, b)] is
    [(a < b) ? b : a]. *)
Definition std_min (a b : double) : double := if dlt b a then b else a.
Definition std_max (a b : double) : double := if dlt a b then b else a.

(** [Gosu::Window(800, 600, false)]: [width()] and [height()] are the
    integers given to the constructor. *)
Definition window_width : Z := 800%Z.
Definition window_height : Z := 600%Z.

(** Lines 218-222: the camera.  [width() / 2] and [height() / 2] are
    integer divisions; their results are converted to [double]. *)
Definition camera (g : GameWindow) : double * double :=
  let camera_x :=
    x (player g) + width (player g) / 2
    - inject_Z (Z.quot window_width 2) in
  let camera_y :=
    y (player g) + height (player g) / 2
    - inject_Z (Z.quot window_height 2) in
  let camera_x :=
    std_max 0
      (std_min camera_x (GameWindow_world_width - inject_Z window_width)) in
  let camera_y :=
    std_max 0
      (std_min camera_y (GameWindow_world_height - inject_Z window_height)) in
  (camera_x, camera_y).

(** What [GameWindow::draw] hands to the graphics library: the translation
    and the shapes, in drawing order. *)
Record Scene : Set := mkScene {
  translate_x : double;
  translate_y : double;
  shapes : list Shape
}.

(** [void GameWindow::draw()]. *)
Definition GameWindow_draw (g : GameWindow) : Scene :=
  {| translate_x := - fst (camera g);
     translate_y := - snd (camera g);
     shapes :=
       map Platform_draw (platforms g)
       ++ map Obstacle_draw (obstacles g)
       ++ match temp_platform g with
          | Some t => [Platform_draw t]
          | None => []
          end
       ++ [Player_draw (player g)] |}.

(** A point of the world is on the screen under the translation of a
    scene. *)
Definition on_screen (s : Scene) (pt : double * double) : Prop :=
  0 <= fst pt + translate_x s
  /\ fst pt + translate_x s <= inject_Z window_width
  /\ 0 <= snd pt + translate_y s
  /\ snd pt + translate_y s <= inject_Z window_height.

(* ================================================================== *)
(** * Part II: properties *)
(* ================================================================== *)

(** ** Comparisons *)

Lemma dle_spec (a b : double) : reflect (a <= b) (dle a b).
Proof.
  unfold dle. apply iff_reflect. symmetry. apply Qle_bool_iff.
Qed.

Lemma dlt_spec (a b : double) : reflect (a < b) (dlt a b).
Proof.
  unfold dlt. change (Qle_bool b a) with (dle b a).
  destruct (dle_spec b a) as [H | H]; simpl; constructor.
  - apply Qle_not_lt. exact H.
  - apply Qnot_le_lt. exact H.
Qed.

Lemma dge_spec (a b : double) : reflect (b <= a) (dge a b).
Proof. unfold dge. apply dle_spec. Qed.

Lemma dgt_spec (a b : double) : reflect (b < a) (dgt a b).
Proof. unfold dgt. apply dlt_spec. Qed.

(** Turn the comparisons of the goal into propositions, innermost first. *)
Ltac no_if t :=
  lazymatch t with
  | context [if _ then _ else _] => fail
  | _ => idtac
  end.

Ltac compare_step :=
  match goal with
  | |- context [dle ?a ?b] => no_if a; no_if b; destruct (dle_spec a b)
  | |- context [dlt ?a ?b] => no_if a; no_if b; destruct (dlt_spec a b)
  | |- context [dge ?a ?b] => no_if a; no_if b; destruct (dge_spec a b)
  | |- context [dgt ?a ?b] => no_if a; no_if b; destruct (dgt_spec a b)
  end.

(** ** The landing test *)

(** The test of the loop body on the frame that enters the loop is the
    landing test. *)
Lemma landing_test_init (q : Player) (plat : Platform) :
  within_x (frame_init q) plat && falling_onto (frame_init q) plat
    && dge (velocity_y q) 0 = true
  <-> passes_landing_test q plat.
Proof.
  unfold within_x, falling_onto, passes_landing_test, frame_init. simpl.
  repeat compare_step; simpl; split; intros H;
    try discriminate; try reflexivity;
    try (repeat split; lra); exfalso; lra.
Qed.

Lemma landing_test_landed (q : Player) (on plat : Platform) :
  passes_landing_test q on ->
  within_x (landed q on) plat && falling_onto (landed q on) plat
    && dge (velocity_y (self (landed q on))) 0 = true
  <-> passes_landing_test q plat /\ y plat <= y on.
Proof.
  unfold within_x, falling_onto, passes_landing_test, landed. simpl.
  intros Hon.
  repeat compare_step; simpl; split; intros H;
    try discriminate; try reflexivity;
    try (repeat split; lra); exfalso; lra.
Qed.

(** ** The platform loop *)

Lemma land_on_init (q : Player) (plat : Platform) :
  (passes_landing_test q plat /\ land_on (frame_init q) plat = landed q plat)
  \/ (~ passes_landing_test q plat
      /\ land_on (frame_init q) plat = frame_init q).
Proof.
  unfold land_on.
  destruct (within_x (frame_init q) plat && falling_onto (frame_init q) plat
            && dge (velocity_y (self (frame_init q))) 0) eqn:E.
  - left. split; [apply landing_test_init; exact E | reflexivity].
  - right. split; [| reflexivity].
    intros H. apply landing_test_init in H. simpl in E. congruence.
Qed.

Lemma land_on_landed (q : Player) (on plat : Platform) :
  passes_landing_test q on ->
  (passes_landing_test q plat /\ y plat <= y on
   /\ land_on (landed q on) plat = landed q plat)
  \/ (~ (passes_landing_test q plat /\ y plat <= y on)
      /\ land_on (landed q on) plat = landed q on).
Proof.
  intros Hon. unfold land_on.
  destruct (within_x (landed q on) plat && falling_onto (landed q on) plat
            && dge (velocity_y (self (landed q on))) 0) eqn:E.
  - left. apply (landing_test_landed q on plat Hon) in E.
    destruct E as [E1 E2]. split; [exact E1 | split; [exact E2 | reflexivity]].
  - right. split; [| reflexivity].
    intros H. apply (landing_test_landed q on plat Hon) in H. congruence.
Qed.

Lemma loop_state_step (q : Player) (done : list Platform) (f : Frame)
    (plat : Platform) :
  loop_state q done f -> loop_state q (done ++ [plat]) (land_on f plat).
Proof.
  intros [Hnone | on Hin Hon Hmin].
  - destruct (land_on_init q plat) as [[Hp ->] | [Hp ->]].
    + apply loop_landed.
      * apply in_or_app. right. left. reflexivity.
      * exact Hp.
      * intros plat' Hin' Hp'. apply in_app_or in Hin'.
        destruct Hin' as [Hin' | [<- | []]].
        -- exfalso. exact (Hnone plat' Hin' Hp').
        -- apply Qle_refl.
    + apply loop_falling. intros plat' Hin'. apply in_app_or in Hin'.
      destruct Hin' as [Hin' | [<- | []]]; [apply Hnone; exact Hin' | exact Hp].
  - destruct (land_on_landed q on plat Hon) as [(Hp & Hle & ->) | [Hp ->]].
    + apply loop_landed.
      * apply in_or_app. right. left. reflexivity.
      * exact Hp.
      * intros plat' Hin' Hp'. apply in_app_or in Hin'.
        destruct Hin' as [Hin' | [<- | []]].
        -- apply Qle_trans with (y on); [exact Hle | apply Hmin; assumption].
        -- apply Qle_refl.
    + apply loop_landed.
      * apply in_or_app. left. exact Hin.
      * exact Hon.
      * intros plat' Hin' Hp'. apply in_app_or in Hin'.
        destruct Hin' as [Hin' | [<- | []]].
        -- apply Hmin; assumption.
        -- apply Qnot_lt_le. intros Hlt. apply Hp. split; [exact Hp' |].
           apply Qlt_le_weak. exact Hlt.
Qed.

(** The platform loop ends either with the frame it started with, no
    platform passing the landing test, or landed on a platform that passes
    the test and is the highest of those that do. *)
Lemma loop_state_resolve (q : Player) (plats : list Platform) :
  loop_state q plats (resolve_platforms plats (frame_init q)).
Proof.
  unfold resolve_platforms.
  induction plats as [| plat done IH] using rev_ind.
  - simpl. apply loop_falling. intros plat [].
  - rewrite fold_left_app. simpl. apply loop_state_step. exact IH.
Qed.

(** ** World borders *)

Lemma border_left_cases (p : Player) :
  (x p < 0 /\ border_left p = set_x p 0)
  \/ (0 <= x p /\ border_left p = p).
Proof.
  unfold border_left. destruct (dlt_spec (x p) 0) as [H | H];
    [left | right]; split; try reflexivity; try assumption.
  apply Qnot_lt_le. exact H.
Qed.

Lemma border_right_cases (p : Player) :
  (world_width p < x p + width p
   /\ border_right p = set_x p (world_width p - width p))
  \/ (x p + width p <= world_width p /\ border_right p = p).
Proof.
  unfold border_right.
  destruct (dgt_spec (x p + width p) (world_width p)) as [H | H];
    [left | right]; split; try reflexivity; try assumption.
  apply Qnot_lt_le. exact H.
Qed.

Lemma border_top_cases (p : Player) :
  (y p < 0 /\ border_top p = set_y p 0)
  \/ (0 <= y p /\ border_top p = p).
Proof.
  unfold border_top. destruct (dlt_spec (y p) 0) as [H | H];
    [left | right]; split; try reflexivity; try assumption.
  apply Qnot_lt_le. exact H.
Qed.

Lemma border_bottom_cases (p : Player) :
  (world_height p < y p + height p
   /\ border_bottom p
      = set_on_ground
          (set_velocity_y (set_y p (world_height p - height p)) 0) true)
  \/ (y p + height p <= world_height p /\ border_bottom p = p).
Proof.
  unfold border_bottom.
  destruct (dgt_spec (y p + height p) (world_height p)) as [H | H];
    [left | right]; split; try reflexivity; try assumption.
  apply Qnot_lt_le. exact H.
Qed.

(** Split on the four border tests, in program order. *)
Ltac borders p :=
  unfold world_borders;
  destruct (border_left_cases p) as [[? ->] | [? ->]];
  match goal with
  | |- context [border_right ?q] =>
      destruct (border_right_cases q) as [[? ->] | [? ->]]
  end;
  match goal with
  | |- context [border_top ?q] =>
      destruct (border_top_cases q) as [[? ->] | [? ->]]
  end;
  match goal with
  | |- context [border_bottom ?q] =>
      destruct (border_bottom_cases q) as [[? ->] | [? ->]]
  end;
  simpl in *.

Lemma world_borders_fixed (p : Player) :
  width (world_borders p) = width p
  /\ height (world_borders p) = height p
  /\ velocity_x (world_borders p) = velocity_x p
  /\ world_width (world_borders p) = world_width p
  /\ world_height (world_borders p) = world_height p
  /\ jumps_available (world_borders p) = jumps_available p
  /\ spawn_x (world_borders p) = spawn_x p
  /\ spawn_y (world_borders p) = spawn_y p
  /\ jump_in_progress (world_borders p) = jump_in_progress p.
Proof. borders p; repeat split; reflexivity. Qed.

Lemma world_borders_inside (p : Player) :
  width p <= world_width p -> height p <= world_height p ->
  inside_world (world_borders p).
Proof.
  intros Hw Hh. unfold inside_world. borders p; repeat split; lra.
Qed.

Lemma world_borders_keep (p : Player) :
  0 <= y p -> y p + height p <= world_height p ->
  y (world_borders p) = y p
  /\ velocity_y (world_borders p) = velocity_y p
  /\ on_ground (world_borders p) = on_ground p.
Proof.
  intros H0 H1. borders p; repeat split; try reflexivity; exfalso; lra.
Qed.

Lemma world_borders_ceiling (p : Player) :
  y p < 0 -> height p <= world_height p ->
  y (world_borders p) = 0
  /\ velocity_y (world_borders p) = velocity_y p
  /\ on_ground (world_borders p) = on_ground p.
Proof.
  intros H0 H1. borders p; repeat split; try reflexivity; exfalso; lra.
Qed.

Lemma world_borders_floor (p : Player) :
  world_height p < y p + height p ->
  y (world_borders p) = world_height p - height p
  /\ velocity_y (world_borders p) = 0
  /\ on_ground (world_borders p) = true.
Proof.
  intros H0. borders p; repeat split; try reflexivity; exfalso; lra.
Qed.

Lemma world_borders_grounded (p : Player) :
  on_ground p = true -> velocity_y p = 0 ->
  on_ground (world_borders p) = true /\ velocity_y (world_borders p) = 0.
Proof.
  intros H0 H1. borders p; repeat split; try reflexivity; assumption.
Qed.

Lemma world_borders_airborne (p : Player) :
  on_ground (world_borders p) = false ->
  on_ground p = false /\ velocity_y (world_borders p) = velocity_y p.
Proof.
  borders p; intros Hair; try discriminate; split; try reflexivity;
    assumption.
Qed.

(** ** Landing *)

Lemma update_velocity_base (input : Input) (p : Player) :
  Player_base (update_velocity input p) = Player_base p
  /\ world_width (update_velocity input p) = world_width p
  /\ world_height (update_velocity input p) = world_height p
  /\ spawn_x (update_velocity input p) = spawn_x p
  /\ spawn_y (update_velocity input p) = spawn_y p.
Proof.
  unfold update_velocity, update_gravity, update_jump, update_move.
  destruct (down input KB_LEFT), (down input KB_RIGHT), (down input KB_UP);
    simpl; try destruct (can_jump _); simpl; repeat split; reflexivity.
Qed.

Lemma refill_jumps_fixed (p : Player) :
  Player_base (refill_jumps p) = Player_base p
  /\ velocity_x (refill_jumps p) = velocity_x p
  /\ velocity_y (refill_jumps p) = velocity_y p
  /\ on_ground (refill_jumps p) = on_ground p
  /\ world_width (refill_jumps p) = world_width p
  /\ world_height (refill_jumps p) = world_height p
  /\ spawn_x (refill_jumps p) = spawn_x p
  /\ spawn_y (refill_jumps p) = spawn_y p
  /\ jump_in_progress (refill_jumps p) = jump_in_progress p.
Proof.
  unfold refill_jumps. destruct (on_ground p) eqn:E; simpl; rewrite ?E;
    repeat split; reflexivity.
Qed.

(** Landing: a platform that passes the landing test grounds the actor,
    and the actor ends on it if no passing platform is higher and the world
    borders leave the actor where the loop put it. *)
Lemma Player_update_lands (input : Input) (platforms : list Platform)
    (temp : option Platform) (p : Player) (plat : Platform) :
  In plat (all_platforms platforms temp) ->
  passes_landing_test (update_velocity input p) plat ->
  on_ground (Player_update input platforms temp p) = true
  /\ velocity_y (Player_update input platforms temp p) = 0
  /\ ((forall other, In other (all_platforms platforms temp) ->
         passes_landing_test (update_velocity input p) other ->
         y plat <= y other) ->
      0 <= y p -> y plat <= world_height p ->
      bottom (Player_update input platforms temp p) == y plat).
Proof.
  intros Hin Hpass. unfold Player_update, update_collide.
  set (q := update_velocity input p).
  destruct (update_velocity_base input p) as (Hbase & _ & Hwh & _).
  fold q in Hbase, Hwh, Hpass.
  destruct (loop_state_resolve q (all_platforms platforms temp))
    as [Hnone | on Hon Hpon Hmin].
  - exfalso. exact (Hnone plat Hin Hpass).
  - set (c := commit (landed q on)).
    assert (Hg : on_ground c = true) by reflexivity.
    assert (Hv : velocity_y c = 0) by reflexivity.
    destruct (world_borders_grounded c Hg Hv) as [Hg' Hv'].
    destruct (refill_jumps_fixed (world_borders c))
      as (Hrb & _ & Hrv & Hrg & _).
    split; [congruence |]. split; [congruence |].
    intros Htop Hy Hworld.
    assert (Heq : y on == y plat).
    { apply Qle_antisym; [apply Hmin | apply Htop]; assumption. }
    assert (Hyq : y q = y p) by (rewrite Hbase; reflexivity).
    assert (Hhq : height q = height p) by (rewrite Hbase; reflexivity).
    destruct Hpon as (_ & Hab & _).
    assert (Hyc : y c = y on - height q) by reflexivity.
    assert (Hhc : height c = height q) by reflexivity.
    assert (Hwc : world_height c = world_height q) by reflexivity.
    destruct (world_borders_keep c) as (Hky & _).
    + rewrite Hyc. rewrite Hyq, Hhq in *. lra.
    + rewrite Hyc, Hhc, Hwc, Hwh. lra.
    + destruct (world_borders_fixed c) as (_ & Hkh & _).
      unfold bottom. rewrite Hrb, Hky, Hkh, Hyc, Hhc. lra.
Qed.

(** ** The jump step *)

Lemma update_move_fixed (input : Input) (p : Player) :
  Player_base (update_move input p) = Player_base p
  /\ velocity_y (update_move input p) = velocity_y p
  /\ on_ground (update_move input p) = on_ground p
  /\ jumps_available (update_move input p) = jumps_available p
  /\ jump_in_progress (update_move input p) = jump_in_progress p.
Proof.
  unfold update_move.
  destruct (down input KB_LEFT), (down input KB_RIGHT); simpl;
    repeat split; reflexivity.
Qed.

Lemma can_jump_update_move (input : Input) (p : Player) :
  can_jump (update_move input p) = can_jump p.
Proof.
  unfold can_jump.
  destruct (update_move_fixed input p) as (_ & _ & _ & -> & ->). reflexivity.
Qed.

Lemma update_jump_fires (input : Input) (p : Player) :
  jump_fires input p = true ->
  velocity_y (update_jump input p) = jump_strength
  /\ on_ground (update_jump input p) = false
  /\ jumps_available (update_jump input p) = (jumps_available p - 1)%Z
  /\ jump_in_progress (update_jump input p) = true.
Proof.
  unfold jump_fires, update_jump. intros H. apply andb_prop in H.
  destruct H as [-> ->]. simpl. repeat split; reflexivity.
Qed.


Lemma update_jump_released (input : Input) (p : Player) :
  down input KB_UP = false ->
  update_jump input p = set_jump_in_progress p false.
Proof. unfold update_jump. intros ->. reflexivity. Qed.

Lemma update_jump_budget (input : Input) (p : Player) :
  jumps_available (update_jump input p)
  = if jump_fires input p then (jumps_available p - 1)%Z
    else jumps_available p.
Proof.
  unfold update_jump, jump_fires.
  destruct (down input KB_UP), (can_jump p); reflexivity.
Qed.


Lemma update_jump_latch (input : Input) (p : Player) :
  jump_in_progress (update_jump input p)
  = down input KB_UP && (jump_fires input p || jump_in_progress p).
Proof.
  unfold update_jump, jump_fires.
  destruct (down input KB_UP), (can_jump p); reflexivity.
Qed.

(** ** What the rest of [update] does to the jump state *)

Section OneUpdate.

Variable input : Input.
Variable platforms : list Platform.
Variable temp : option Platform.
Variable p : Player.

(** The player that enters the platform loop, the frame that leaves it,
    and the result of the call. *)
Local Abbreviation q := (update_velocity input p).
Local Abbreviation f := (update_collide input platforms temp p).
Local Abbreviation p' := (Player_update input platforms temp p).

Lemma update_collide_cases :
  (f = frame_init q
   /\ forall plat, In plat (all_platforms platforms temp) ->
                   ~ passes_landing_test q plat)
  \/ (exists on, In on (all_platforms platforms temp)
                 /\ passes_landing_test q on /\ f = landed q on).
Proof.
  unfold update_collide.
  destruct (loop_state_resolve q (all_platforms platforms temp))
    as [Hnone | on Hin Hon _].
  - left. split; [reflexivity | exact Hnone].
  - right. exists on. split; [exact Hin | split; [exact Hon | reflexivity]].
Qed.

Lemma update_velocity_jump :
  velocity_y q
  = velocity_y (update_jump input (update_move input p)) + gravity
  /\ jumps_available q = jumps_available (update_jump input p)
  /\ jump_in_progress q = jump_in_progress (update_jump input p).
Proof.
  unfold update_velocity, update_gravity. simpl.
  rewrite !update_jump_budget, !update_jump_latch.
  unfold jump_fires. rewrite can_jump_update_move.
  destruct (update_move_fixed input p) as (_ & _ & _ & -> & ->).
  repeat split; reflexivity.
Qed.

Lemma Player_update_latch :
  jump_in_progress p' = jump_in_progress (update_jump input p).
Proof.
  unfold Player_update.
  destruct (refill_jumps_fixed (world_borders (commit f)))
    as (_ & _ & _ & _ & _ & _ & _ & _ & ->).
  destruct (world_borders_fixed (commit f))
    as (_ & _ & _ & _ & _ & _ & _ & _ & ->).
  destruct update_velocity_jump as (_ & _ & <-).
  destruct update_collide_cases as [[-> _] | (on & _ & _ & ->)];
    reflexivity.
Qed.

Lemma Player_update_airborne :
  on_ground p' = false ->
  jumps_available p' = jumps_available (update_jump input p)
  /\ velocity_y p'
     = velocity_y (update_jump input (update_move input p)) + gravity.
Proof.
  unfold Player_update.
  destruct (refill_jumps_fixed (world_borders (commit f)))
    as (_ & _ & -> & -> & _).
  intros Hair. unfold refill_jumps. rewrite Hair.
  destruct (world_borders_airborne (commit f) Hair) as [Hc ->].
  destruct (world_borders_fixed (commit f)) as (_ & _ & _ & _ & _ & -> & _).
  destruct update_velocity_jump as (<- & <- & _).
  destruct update_collide_cases as [[Hf _] | (on & _ & _ & Hf)];
    rewrite Hf in *.
  - split; reflexivity.
  - discriminate.
Qed.

End OneUpdate.

Lemma update_velocity_no_jump (input : Input) (p : Player) :
  jump_fires input p = false ->
  velocity_y (update_velocity input p) = velocity_y p + gravity.
Proof.
  intros Hno. destruct (update_velocity_jump input p) as (-> & _).
  destruct (update_move_fixed input p) as (_ & Hv & _).
  unfold update_jump. unfold jump_fires in Hno.
  rewrite can_jump_update_move.
  destruct (down input KB_UP); simpl in Hno.
  - rewrite Hno. rewrite Hv. reflexivity.
  - cbn [velocity_y set_jump_in_progress]. rewrite Hv. reflexivity.
Qed.

(** ** The jump budget along the steps *)

Lemma refill_jumps_inside (p : Player) :
  inside_world p -> inside_world (refill_jumps p).
Proof.
  unfold inside_world.
  destruct (refill_jumps_fixed p) as (-> & _ & _ & _ & -> & -> & _).
  intros H. exact H.
Qed.

Lemma update_jump_in_range (input : Input) (p : Player) :
  jumps_in_range p -> jumps_in_range (update_jump input p).
Proof.
  unfold jumps_in_range. rewrite update_jump_budget.
  unfold jump_fires, can_jump.
  destruct (down input KB_UP); simpl; [| lia].
  destruct (Z.ltb_spec 0 (jumps_available p)); simpl; [| lia].
  destruct (jump_in_progress p); simpl; lia.
Qed.

Lemma refill_jumps_in_range (p : Player) :
  jumps_in_range p -> jumps_in_range (refill_jumps p).
Proof.
  unfold jumps_in_range, refill_jumps.
  destruct (on_ground p); simpl; lia.
Qed.

Lemma die_in_range (p : Player) : jumps_in_range (die p).
Proof. unfold jumps_in_range. simpl. lia. Qed.

(** ** The result of one update *)

Section UpdateResult.

Variable input : Input.
Variable platforms : list Platform.
Variable temp : option Platform.
Variable p : Player.

Local Abbreviation c := (commit (update_collide input platforms temp p)).
Local Abbreviation p' := (Player_update input platforms temp p).

(** The fields [update] never writes. *)
Lemma update_commit_fixed :
  width c = width p /\ height c = height p
  /\ world_width c = world_width p /\ world_height c = world_height p
  /\ spawn_x c = spawn_x p /\ spawn_y c = spawn_y p.
Proof.
  destruct (update_velocity_base input p) as (Hb & Hww & Hwh & Hsx & Hsy).
  destruct (update_collide_cases input platforms temp p)
    as [[-> _] | (on & _ & _ & ->)];
    revert Hb Hww Hwh Hsx Hsy; generalize (update_velocity input p);
    intros q Hb Hww Hwh Hsx Hsy; simpl;
    rewrite Hb, Hww, Hwh, Hsx, Hsy; repeat split; reflexivity.
Qed.

Lemma Player_update_fixed :
  width p' = width p /\ height p' = height p
  /\ world_width p' = world_width p /\ world_height p' = world_height p
  /\ spawn_x p' = spawn_x p /\ spawn_y p' = spawn_y p.
Proof.
  unfold Player_update.
  destruct (refill_jumps_fixed (world_borders c))
    as (-> & _ & _ & _ & -> & -> & -> & -> & _).
  destruct (world_borders_fixed c)
    as (-> & -> & _ & -> & -> & _ & -> & -> & _).
  exact update_commit_fixed.
Qed.

Lemma Player_update_inside :
  width p <= world_width p -> height p <= world_height p ->
  inside_world p'.
Proof.
  intros Hw Hh. unfold Player_update.
  apply refill_jumps_inside, world_borders_inside;
    destruct update_commit_fixed as (Fw & Fh & Fww & Fwh & _);
    rewrite ?Fw, ?Fh, ?Fww, ?Fwh; assumption.
Qed.

(** The budget is refilled on the ground and otherwise left as the jump
    step set it. *)
Lemma Player_update_budget :
  jumps_available p'
  = if on_ground p' then 2%Z else jumps_available (update_jump input p).
Proof.
  destruct (on_ground p') eqn:Hg.
  - revert Hg. unfold Player_update.
    destruct (refill_jumps_fixed (world_borders c))
      as (_ & _ & _ & -> & _).
    unfold refill_jumps. intros ->. reflexivity.
  - apply Player_update_airborne. exact Hg.
Qed.

Lemma Player_update_in_range : jumps_in_range p -> jumps_in_range p'.
Proof.
  intros H. apply (update_jump_in_range input) in H.
  unfold jumps_in_range in *. rewrite Player_update_budget.
  destruct (on_ground p'); lia.
Qed.

End UpdateResult.

(** ** The obstacle loop *)

Lemma die_respawned (p : Player) : respawned (die p).
Proof. unfold respawned. simpl. repeat split; reflexivity. Qed.

Lemma hit_cases (p : Player) (obstacle : Obstacle) :
  (rects_overlap p obstacle = true /\ hit p obstacle = die p)
  \/ (rects_overlap p obstacle = false /\ hit p obstacle = p).
Proof.
  unfold hit. destruct (rects_overlap p obstacle); [left | right];
    split; reflexivity.
Qed.

Lemma die_fixed (p : Player) :
  width (die p) = width p /\ height (die p) = height p
  /\ on_ground (die p) = on_ground p
  /\ world_width (die p) = world_width p
  /\ world_height (die p) = world_height p
  /\ spawn_x (die p) = spawn_x p /\ spawn_y (die p) = spawn_y p
  /\ jump_in_progress (die p) = jump_in_progress p.
Proof. simpl. repeat split; reflexivity. Qed.

Lemma hit_fixed (p : Player) (obstacle : Obstacle) :
  width (hit p obstacle) = width p /\ height (hit p obstacle) = height p
  /\ on_ground (hit p obstacle) = on_ground p
  /\ world_width (hit p obstacle) = world_width p
  /\ world_height (hit p obstacle) = world_height p
  /\ spawn_x (hit p obstacle) = spawn_x p
  /\ spawn_y (hit p obstacle) = spawn_y p
  /\ jump_in_progress (hit p obstacle) = jump_in_progress p.
Proof.
  destruct (hit_cases p obstacle) as [[_ ->] | [_ ->]];
    [apply die_fixed | repeat split; reflexivity].
Qed.

Lemma check_obstacles_cons (p : Player) (obstacle : Obstacle)
    (rest : list Obstacle) :
  check_obstacles (obstacle :: rest) p
  = check_obstacles rest (hit p obstacle).
Proof. reflexivity. Qed.

Lemma check_obstacles_fixed (obs : list Obstacle) (p : Player) :
  width (check_obstacles obs p) = width p
  /\ height (check_obstacles obs p) = height p
  /\ on_ground (check_obstacles obs p) = on_ground p
  /\ world_width (check_obstacles obs p) = world_width p
  /\ world_height (check_obstacles obs p) = world_height p
  /\ spawn_x (check_obstacles obs p) = spawn_x p
  /\ spawn_y (check_obstacles obs p) = spawn_y p
  /\ jump_in_progress (check_obstacles obs p) = jump_in_progress p.
Proof.
  revert p. induction obs as [| obstacle rest IH]; intros p.
  - repeat split; reflexivity.
  - rewrite check_obstacles_cons.
    destruct (IH (hit p obstacle)) as (-> & -> & -> & -> & -> & -> & -> & ->).
    apply hit_fixed.
Qed.

Lemma check_obstacles_respawned (obs : list Obstacle) (p : Player) :
  respawned p -> respawned (check_obstacles obs p).
Proof.
  revert p. induction obs as [| obstacle rest IH]; intros p Hp.
  - exact Hp.
  - rewrite check_obstacles_cons. apply IH.
    destruct (hit_cases p obstacle) as [[_ ->] | [_ ->]];
      [apply die_respawned | exact Hp].
Qed.

Lemma check_obstacles_hit (obs : list Obstacle) (p : Player) :
  (exists obstacle, In obstacle obs /\ rects_overlap p obstacle = true) ->
  respawned (check_obstacles obs p).
Proof.
  revert p. induction obs as [| obstacle rest IH];
    intros p (hazard & Hin & Hover).
  - destruct Hin.
  - rewrite check_obstacles_cons.
    destruct (hit_cases p obstacle) as [[_ ->] | [Hmiss ->]].
    + apply check_obstacles_respawned, die_respawned.
    + apply IH. exists hazard. split; [| exact Hover].
      destruct Hin as [<- | Hin]; [congruence | exact Hin].
Qed.

Lemma check_obstacles_cases (obs : list Obstacle) (p : Player) :
  check_obstacles obs p = p \/ respawned (check_obstacles obs p).
Proof.
  revert p. induction obs as [| obstacle rest IH]; intros p.
  - left. reflexivity.
  - rewrite check_obstacles_cons.
    destruct (hit_cases p obstacle) as [[_ ->] | [_ ->]].
    + right. apply check_obstacles_respawned, die_respawned.
    + apply IH.
Qed.

(** ** Runs *)

Lemma Player_step_eq (p : Player) (s : Step) :
  Player_step p s
  = Player_update (step_input s) (step_platforms s) (step_temp s) p.
Proof. reflexivity. Qed.

Lemma Player_run_cons (p : Player) (s : Step) (rest : list Step) :
  Player_run p (s :: rest) = Player_run (Player_step p s) rest.
Proof. reflexivity. Qed.

Lemma Player_run_app (p : Player) (l1 l2 : list Step) :
  Player_run p (l1 ++ l2) = Player_run (Player_run p l1) l2.
Proof. unfold Player_run. apply fold_left_app. Qed.














(** ** The phases of [GameWindow::update] *)

Lemma place_platform_cases (input : Input) (clock : Millis) (g : GameWindow) :
  (rising_edge input g = true /\ temp_platform g = None
   /\ cooldown_elapsed (ms_cooldown clock) g
   /\ place_platform input clock g
      = set_down_pressed_last_frame (place_now clock g) true)
  \/ (~ (rising_edge input g = true /\ temp_platform g = None
         /\ cooldown_elapsed (ms_cooldown clock) g)
      /\ place_platform input clock g
         = set_down_pressed_last_frame g (down input KB_DOWN)).
Proof.
  unfold place_platform, rising_edge, cooldown_elapsed, on_cooldown,
    has_temp_platform.
  destruct (down input KB_DOWN); simpl.
  - destruct (down_pressed_last_frame g); simpl.
    + right. split; [| reflexivity]. intros (H & _). discriminate.
    + destruct (temp_platform g) as [t |]; simpl.
      * right. split; [| reflexivity]. intros (_ & H & _). discriminate.
      * destruct (Z.ltb_spec
                    (ulong_sub (ms_cooldown clock)
                       (temp_platform_last_placed g)) platform_cooldown)
          as [Hlt | Hge].
        -- right. split; [| reflexivity]. intros (_ & _ & H). lia.
        -- left. repeat split; try reflexivity. assumption.
  - right. split; [| reflexivity]. intros (H & _). discriminate.
Qed.

Lemma place_platform_fixed (input : Input) (clock : Millis) (g : GameWindow) :
  platforms (place_platform input clock g) = platforms g
  /\ obstacles (place_platform input clock g) = obstacles g
  /\ player (place_platform input clock g) = player g.
Proof.
  destruct (place_platform_cases input clock g)
    as [(_ & _ & _ & ->) | (_ & ->)]; repeat split; reflexivity.
Qed.

Lemma expire_platform_fixed (clock : Millis) (g : GameWindow) :
  platforms (expire_platform clock g) = platforms g
  /\ obstacles (expire_platform clock g) = obstacles g
  /\ player (expire_platform clock g) = player g
  /\ temp_platform_created (expire_platform clock g)
     = temp_platform_created g
  /\ temp_platform_last_placed (expire_platform clock g)
     = temp_platform_last_placed g
  /\ down_pressed_last_frame (expire_platform clock g)
     = down_pressed_last_frame g
  /\ (temp_platform (expire_platform clock g) = temp_platform g
      \/ temp_platform (expire_platform clock g) = None).
Proof.
  unfold expire_platform.
  destruct (has_temp_platform g
            && (5000 <? ulong_sub (ms_expiry clock)
                          (temp_platform_created g))%Z);
    simpl; repeat split; try reflexivity; [right | left]; reflexivity.
Qed.

Lemma GameWindow_update_eq (input : Input) (clock : Millis) (g : GameWindow) :
  GameWindow_update input clock g
  = obstacle_collision
      (move_player input
         (expire_platform clock (place_platform input clock g))).
Proof. reflexivity. Qed.

Lemma GameWindow_update_fixed (input : Input) (clock : Millis)
    (g : GameWindow) :
  platforms (GameWindow_update input clock g) = platforms g
  /\ obstacles (GameWindow_update input clock g) = obstacles g
  /\ temp_platform (GameWindow_update input clock g)
     = temp_platform (expire_platform clock (place_platform input clock g))
  /\ temp_platform_created (GameWindow_update input clock g)
     = temp_platform_created (place_platform input clock g)
  /\ temp_platform_last_placed (GameWindow_update input clock g)
     = temp_platform_last_placed (place_platform input clock g).
Proof.
  rewrite GameWindow_update_eq. unfold obstacle_collision, move_player.
  cbn [platforms obstacles temp_platform temp_platform_created
         temp_platform_last_placed set_player].
  destruct (expire_platform_fixed clock (place_platform input clock g))
    as (-> & -> & _ & -> & -> & _).
  destruct (place_platform_fixed input clock g) as (-> & -> & _).
  repeat split; reflexivity.
Qed.

Lemma player_before_hazards_eq (input : Input) (clock : Millis)
    (g : GameWindow) :
  player_before_hazards input clock g
  = Player_update input (platforms g)
      (temp_platform (expire_platform clock (place_platform input clock g)))
      (player g).
Proof.
  unfold player_before_hazards, move_player. cbn [player set_player].
  destruct (expire_platform_fixed clock (place_platform input clock g))
    as (-> & _ & -> & _).
  destruct (place_platform_fixed input clock g) as (-> & _ & ->).
  reflexivity.
Qed.

Lemma GameWindow_update_player (input : Input) (clock : Millis)
    (g : GameWindow) :
  player (GameWindow_update input clock g)
  = check_obstacles (obstacles g) (player_before_hazards input clock g).
Proof.
  rewrite GameWindow_update_eq. unfold obstacle_collision.
  cbn [player set_player]. unfold player_before_hazards, move_player.
  cbn [obstacles player set_player].
  destruct (expire_platform_fixed clock (place_platform input clock g))
    as (_ & -> & _).
  destruct (place_platform_fixed input clock g) as (_ & -> & _).
  reflexivity.
Qed.

Lemma GameWindow_update_flag (input : Input) (clock : Millis)
    (g : GameWindow) :
  down_pressed_last_frame (GameWindow_update input clock g)
  = down input KB_DOWN.
Proof.
  rewrite GameWindow_update_eq. unfold obstacle_collision, move_player.
  cbn [down_pressed_last_frame set_player].
  destruct (expire_platform_fixed clock (place_platform input clock g))
    as (_ & _ & _ & _ & _ & -> & _).
  destruct (place_platform_cases input clock g)
    as [(He & _ & _ & ->) | (_ & ->)]; cbn [down_pressed_last_frame
                                             set_down_pressed_last_frame];
    [| reflexivity].
  unfold rising_edge in He. apply andb_prop in He. symmetry. apply He.
Qed.

Lemma play_snoc (g : GameWindow) (ticks : list Tick) (t : Tick) :
  play g (ticks ++ [t]) = GameWindow_update (fst t) (snd t) (play g ticks).
Proof. unfold play. rewrite fold_left_app. reflexivity. Qed.

(** ** The landing scenario *)

Lemma scenario_S (n : nat) :
  scenario (S n) = Player_update no_keys scenario_platforms None (scenario n).
Proof. reflexivity. Qed.

Lemma scenario_rests (k : nat) :
  scenario (landing_tick + k) = scenario landing_tick.
Proof.
  induction k as [| k IH].
  - rewrite Nat.add_0_r. reflexivity.
  - rewrite Nat.add_succ_r, scenario_S, IH. vm_compute. reflexivity.
Qed.

Lemma scenario_falls (n : nat) :
  (n < landing_tick)%nat ->
  y (scenario n) < 900 /\ on_ground (scenario n) = false
  /\ ((0 < n)%nat -> 0 < velocity_y (scenario n)).
Proof.
  intros Hn.
  assert (Hall : forallb
            (fun k => dlt (y (scenario k)) 900
                      && negb (on_ground (scenario k))
                      && (Nat.eqb k 0 || dlt 0 (velocity_y (scenario k))))
            (seq 0 landing_tick) = true) by (vm_compute; reflexivity).
  rewrite forallb_forall in Hall.
  specialize (Hall n). rewrite in_seq in Hall.
  assert (Hn' : (0 <= n < 0 + landing_tick)%nat) by lia.
  apply Hall in Hn'. apply andb_prop in Hn'. destruct Hn' as [H12 H3].
  apply andb_prop in H12. destruct H12 as [H1 H2].
  split; [| split].
  - destruct (dlt_spec (y (scenario n)) 900); [assumption | discriminate].
  - destruct (on_ground (scenario n)); [discriminate | reflexivity].
  - intros Hpos. apply orb_prop in H3. destruct H3 as [H3 | H3].
    + apply Nat.eqb_eq in H3. lia.
    + destruct (dlt_spec 0 (velocity_y (scenario n)));
        [assumption | discriminate].
Qed.

Lemma scenario_lands :
  bottom (scenario landing_tick) == 950
  /\ velocity_y (scenario landing_tick) = 0
  /\ on_ground (scenario landing_tick) = true.
Proof. vm_compute. repeat split. Qed.

(** C1 as stated fails.  The actor of the game in free fall above the
    ledge, 44 frames after the start, with a transient platform just placed
    under its feet: the ledge passes the landing test, yet the update ends
    with the bottom edge of the actor at 647, the top of the transient
    platform, not at 650, the top of the ledge. *)
Lemma ledge_is_missed :
  let temp := Some (new_temp_platform falling_player) in
  In ledge (all_platforms level_platforms temp)
  /\ passes_landing_test (update_velocity no_keys falling_player) ledge
  /\ bottom (Player_update no_keys level_platforms temp falling_player)
     == 647
  /\ ~ bottom (Player_update no_keys level_platforms temp falling_player)
       == y ledge.
Proof.
  cbv zeta. split; [| split; [| split]].
  - simpl. tauto.
  - unfold passes_landing_test. repeat split; vm_compute; congruence.
  - vm_compute. reflexivity.
  - vm_compute. congruence.
Qed.

Lemma reachable_play (g : GameWindow) (ticks : list Tick) :
  reachable g -> reachable (play g ticks).
Proof.
  revert g. induction ticks as [| t ticks IH]; intros g Hg.
  - exact Hg.
  - simpl. apply IH. apply reachable_update. exact Hg.
Qed.

(** The state of [ledge_is_missed] arises in the game: 44 frames without
    input lead to [falling_player], and pressing the create key in the
    next frame, the cooldown being over, ends that frame with the actor on
    the transient platform. *)
Lemma falling_player_in_game :
  let g := play GameWindow_new (repeat (no_keys, at_ms 0%Z) 44) in
  reachable g
  /\ Player_equiv (player g) falling_player
  /\ temp_platform g = None
  /\ bottom (player (GameWindow_update (only KB_DOWN) (at_ms 6000%Z) g))
     == 647.
Proof.
  cbv zeta. split; [| split; [| split]].
  - apply reachable_play. apply reachable_new.
  - vm_compute. repeat split.
  - vm_compute. reflexivity.
  - vm_compute. reflexivity.
Qed.


(** ** Invariants of the game *)

Lemma check_obstacles_inside (obs : list Obstacle) (p : Player) :
  spawn_inside_world p -> inside_world p ->
  inside_world (check_obstacles obs p).
Proof.
  intros Hs Hp.
  destruct (check_obstacles_fixed obs p)
    as (Fw & Fh & _ & Fww & Fwh & Fsx & Fsy & _).
  destruct (check_obstacles_cases obs p) as [-> | (Hx & Hy & _)].
  - exact Hp.
  - unfold inside_world. rewrite Hx, Hy, Fw, Fh, Fww, Fwh, Fsx, Fsy.
    exact Hs.
Qed.

Lemma check_obstacles_in_range (obs : list Obstacle) (p : Player) :
  jumps_in_range p -> jumps_in_range (check_obstacles obs p).
Proof.
  intros Hp.
  destruct (check_obstacles_cases obs p) as [-> | (_ & _ & _ & _ & Hj)].
  - exact Hp.
  - unfold jumps_in_range. rewrite Hj. lia.
Qed.

Lemma GameWindow_update_inside (input : Input) (clock : Millis)
    (g : GameWindow) :
  width (player g) <= world_width (player g) ->
  height (player g) <= world_height (player g) ->
  spawn_inside_world (player g) ->
  inside_world (player (GameWindow_update input clock g)).
Proof.
  intros Hw Hh Hs.
  rewrite GameWindow_update_player, player_before_hazards_eq.
  apply check_obstacles_inside.
  - unfold spawn_inside_world.
    destruct (Player_update_fixed input (platforms g)
                (temp_platform
                   (expire_platform clock (place_platform input clock g)))
                (player g)) as (-> & -> & -> & -> & -> & ->).
    exact Hs.
  - apply Player_update_inside; assumption.
Qed.

Lemma level_player_fits (p : Player) :
  level_player p ->
  width p <= world_width p /\ height p <= world_height p
  /\ spawn_inside_world p.
Proof.
  unfold level_player, spawn_inside_world.
  intros (-> & -> & -> & -> & -> & ->).
  unfold GameWindow_world_width, GameWindow_world_height.
  repeat split; lra.
Qed.

Lemma game_invariant_new : game_invariant GameWindow_new.
Proof.
  unfold game_invariant, level_player, inside_world, jumps_in_range.
  simpl. unfold GameWindow_world_width, GameWindow_world_height.
  repeat split; try reflexivity; try lra; lia.
Qed.

Lemma game_invariant_update (input : Input) (clock : Millis)
    (g : GameWindow) :
  game_invariant g -> game_invariant (GameWindow_update input clock g).
Proof.
  intros (Hlevel & Hin & Hj & Hplats & Hobs).
  destruct (level_player_fits _ Hlevel) as (Hw & Hh & Hs).
  destruct (GameWindow_update_fixed input clock g) as (Fp & Fo & _).
  unfold game_invariant. rewrite Fp, Fo.
  split; [| split; [| split; [| split]]]; try assumption.
  - rewrite GameWindow_update_player, player_before_hazards_eq.
    unfold level_player.
    destruct (check_obstacles_fixed (obstacles g)
                (Player_update input (platforms g)
                   (temp_platform
                      (expire_platform clock (place_platform input clock g)))
                   (player g)))
      as (-> & -> & _ & -> & -> & -> & -> & _).
    destruct (Player_update_fixed input (platforms g)
                (temp_platform
                   (expire_platform clock (place_platform input clock g)))
                (player g)) as (-> & -> & -> & -> & -> & ->).
    exact Hlevel.
  - apply GameWindow_update_inside; assumption.
  - rewrite GameWindow_update_player, player_before_hazards_eq.
    apply check_obstacles_in_range, Player_update_in_range. exact Hj.
Qed.

Lemma reachable_invariant (g : GameWindow) :
  reachable g -> game_invariant g.
Proof.
  induction 1 as [| input clock g _ IH].
  - apply game_invariant_new.
  - apply game_invariant_update. exact IH.
Qed.

(** C2.  After every tick (the actor update followed by the obstacle
    check) the box of the actor lies in the world rectangle:
    [0 <= x <= world_width - width] and [0 <= y <= world_height - height].
    First part: one tick establishes it from any state whose actor fits in
    its world and whose spawn point lies in the world.  Second part: in
    every reachable state of the game the actor is 50x50, the world is
    2000x1000 and the box is inside. *)
Theorem world_clamp :
  (forall (input : Input) (clock : Millis) (g : GameWindow),
      width (player g) <= world_width (player g) ->
      height (player g) <= world_height (player g) ->
      spawn_inside_world (player g) ->
      inside_world (player (GameWindow_update input clock g)))
  /\ (forall g : GameWindow,
         reachable g ->
         width (player g) = 50 /\ height (player g) = 50
         /\ world_width (player g) = 2000 /\ world_height (player g) = 1000
         /\ 0 <= x (player g) /\ x (player g) <= 2000 - 50
         /\ 0 <= y (player g) /\ y (player g) <= 1000 - 50).
Proof.
  split; [apply GameWindow_update_inside |].
  intros g Hg. apply reachable_invariant in Hg.
  destruct Hg as ((Hw & Hh & Hww & Hwh & _) & Hin & _).
  unfold inside_world in Hin. rewrite Hw, Hh, Hww, Hwh in Hin.
  repeat split; try assumption; apply Hin.
Qed.

(** C3.  The jump budget satisfies [0 <= jumps_available <= 2] in every
    reachable state.  Each path that writes it keeps the bounds: the
    guarded decrement of the jump step, the reset on grounding, the reset
    in [die]; hence so does a whole [Player::update], and, from the initial
    value 2, every state the game reaches. *)
Theorem jump_budget_bounds :
  (forall (input : Input) (p : Player),
      jumps_in_range p -> jumps_in_range (update_jump input p))
  /\ (forall p : Player, jumps_in_range p -> jumps_in_range (refill_jumps p))
  /\ (forall p : Player, jumps_in_range (die p))
  /\ (forall (input : Input) (platforms : list Platform)
             (temp : option Platform) (p : Player),
         jumps_in_range p ->
         jumps_in_range (Player_update input platforms temp p))
  /\ (forall g : GameWindow,
         reachable g -> (0 <= jumps_available (player g) <= 2)%Z).
Proof.
  split; [exact update_jump_in_range |].
  split; [exact refill_jumps_in_range |].
  split; [exact die_in_range |].
  split; [exact Player_update_in_range |].
  intros g Hg. apply reachable_invariant in Hg.
  destruct Hg as (_ & _ & Hj & _). exact Hj.
Qed.

Lemma Player_update_grounded (input : Input) (platforms : list Platform)
    (temp : option Platform) (p : Player) :
  on_ground (Player_update input platforms temp p) = true ->
  jumps_available (Player_update input platforms temp p) = 2%Z.
Proof. intros H. rewrite Player_update_budget, H. reflexivity. Qed.

Lemma GameWindow_update_grounded (input : Input) (clock : Millis)
    (g : GameWindow) :
  on_ground (player (GameWindow_update input clock g)) = true ->
  jumps_available (player (GameWindow_update input clock g)) = 2%Z.
Proof.
  rewrite GameWindow_update_player, player_before_hazards_eq.
  set (p := Player_update input (platforms g)
              (temp_platform
                 (expire_platform clock (place_platform input clock g)))
              (player g)).
  destruct (check_obstacles_fixed (obstacles g) p) as (_ & _ & -> & _).
  intros Hg.
  destruct (check_obstacles_cases (obstacles g) p)
    as [-> | (_ & _ & _ & _ & Hj)].
  - apply Player_update_grounded. exact Hg.
  - exact Hj.
Qed.

(** C4.  Whenever an update leaves [on_ground] true, the jump budget is
    2 at the end of that update, whatever it was before; and the same holds
    at the end of the last tick of every run of the game, the obstacle check
    included.  The transition of [on_ground] from false to true is the
    special case where the previous state was airborne. *)
Theorem grounding_restores_budget :
  (forall (input : Input) (platforms : list Platform)
          (temp : option Platform) (p : Player),
      on_ground (Player_update input platforms temp p) = true ->
      jumps_available (Player_update input platforms temp p) = 2%Z)
  /\ (forall (g : GameWindow) (ticks : list Tick) (t : Tick),
         on_ground (player (play g (ticks ++ [t]))) = true ->
         jumps_available (player (play g (ticks ++ [t]))) = 2%Z).
Proof.
  split; [exact Player_update_grounded |].
  intros g ticks t. rewrite play_snoc. apply GameWindow_update_grounded.
Qed.

(** C6.  If the box of the actor overlaps some obstacle when the obstacle
    loop of a tick starts, then at the end of that tick the actor is at its
    spawn point, both velocity components are 0 and the jump budget is 2. *)
Theorem hazard_respawn (input : Input) (clock : Millis) (g : GameWindow) :
  (exists obstacle,
      In obstacle (obstacles g)
      /\ rects_overlap (player_before_hazards input clock g) obstacle = true)
  ->
  x (player (GameWindow_update input clock g)) = spawn_x (player g)
  /\ y (player (GameWindow_update input clock g)) = spawn_y (player g)
  /\ velocity_x (player (GameWindow_update input clock g)) = 0
  /\ velocity_y (player (GameWindow_update input clock g)) = 0
  /\ jumps_available (player (GameWindow_update input clock g)) = 2%Z.
Proof.
  intros Hhit. rewrite GameWindow_update_player.
  apply check_obstacles_hit in Hhit.
  destruct Hhit as (Hx & Hy & Hvx & Hvy & Hj).
  destruct (check_obstacles_fixed (obstacles g)
              (player_before_hazards input clock g))
    as (_ & _ & _ & _ & _ & Fsx & Fsy & _).
  rewrite Fsx in Hx. rewrite Fsy in Hy.
  rewrite player_before_hazards_eq in Hx, Hy.
  destruct (Player_update_fixed input (platforms g)
              (temp_platform
                 (expire_platform clock (place_platform input clock g)))
              (player g)) as (_ & _ & _ & _ & Gsx & Gsy).
  rewrite Gsx in Hx. rewrite Gsy in Hy.
  rewrite <- player_before_hazards_eq in Hx, Hy.
  repeat split; assumption.
Qed.

Lemma transient_platforms_count (g : GameWindow) :
  (length (transient_platforms g) <= 1)%nat
  /\ all_platforms (platforms g) (temp_platform g)
     = platforms g ++ transient_platforms g.
Proof.
  unfold transient_platforms, all_platforms.
  destruct (temp_platform g); simpl; split; (lia || reflexivity).
Qed.

(** C7.  At most one transient platform exists: the snapshot handed to
    [Player::update] is the static platforms followed by at most one
    transient one.  While a transient platform exists, a rising edge of the
    create key is a no-op of the creation step (only the edge flag is
    written): the platform is the same, there is still exactly one, and
    neither stamp changes; at the end of the tick the platform is the same
    one or has expired, and the stamps are still unchanged. *)
Theorem transient_platform_exclusive :
  (forall g : GameWindow,
      (length (transient_platforms g) <= 1)%nat
      /\ all_platforms (platforms g) (temp_platform g)
         = platforms g ++ transient_platforms g)
  /\ (forall (g : GameWindow) (input : Input) (clock : Millis)
             (active : Platform),
         temp_platform g = Some active ->
         rising_edge input g = true ->
         let g1 := place_platform input clock g in
         let g' := GameWindow_update input clock g in
         g1 = set_down_pressed_last_frame g true
         /\ temp_platform g1 = Some active
         /\ transient_platforms g1 = [active]
         /\ temp_platform_created g1 = temp_platform_created g
         /\ temp_platform_last_placed g1 = temp_platform_last_placed g
         /\ (temp_platform g' = Some active \/ temp_platform g' = None)
         /\ temp_platform_created g' = temp_platform_created g
         /\ temp_platform_last_placed g' = temp_platform_last_placed g).
Proof.
  split; [exact transient_platforms_count |].
  intros g input clock active Hactive Hedge g1 g'.
  assert (Hdown : down input KB_DOWN = true).
  { unfold rising_edge in Hedge. apply andb_prop in Hedge. apply Hedge. }
  assert (Hg1 : g1 = set_down_pressed_last_frame g true).
  { subst g1.
    destruct (place_platform_cases input clock g)
      as [(_ & Hnone & _) | (_ & ->)].
    - congruence.
    - rewrite Hdown. reflexivity. }
  assert (Ht1 : temp_platform g1 = Some active).
  { rewrite Hg1. exact Hactive. }
  assert (Hc1 : temp_platform_created g1 = temp_platform_created g).
  { rewrite Hg1. reflexivity. }
  assert (Hl1 : temp_platform_last_placed g1 = temp_platform_last_placed g).
  { rewrite Hg1. reflexivity. }
  destruct (GameWindow_update_fixed input clock g)
    as (_ & _ & Ft & Fc & Fl).
  fold g' g1 in Ft, Fc, Fl.
  split; [exact Hg1 |]. split; [exact Ht1 |].
  split; [unfold transient_platforms; rewrite Ht1; reflexivity |].
  split; [exact Hc1 |]. split; [exact Hl1 |].
  split; [| split; congruence].
  rewrite Ft.
  destruct (expire_platform_fixed clock g1)
    as (_ & _ & _ & _ & _ & _ & [-> | ->]);
    [left; exact Ht1 | right; reflexivity].
Qed.

(** The edge flag along a run: it is the state of the create key in the
    last frame. *)
Lemma play_flag (ticks : list Tick) (g : GameWindow) :
  down_pressed_last_frame (play g ticks)
  = last (map (fun t : Tick => down (fst t) KB_DOWN) ticks)
      (down_pressed_last_frame g).
Proof.
  induction ticks as [| t ticks _] using rev_ind.
  - reflexivity.
  - rewrite play_snoc, map_app. cbn [map]. rewrite last_last.
    apply GameWindow_update_flag.
Qed.

Lemma platform_appears_iff (input : Input) (clock : Millis)
    (g : GameWindow) :
  platform_appears input clock g = true
  <-> rising_edge input g = true /\ temp_platform g = None
      /\ cooldown_elapsed (ms_cooldown clock) g.
Proof.
  unfold platform_appears, has_temp_platform.
  destruct (place_platform_cases input clock g)
    as [(He & Hn & Hc & ->) | (Hnot & ->)];
    cbn [temp_platform set_down_pressed_last_frame place_now].
  - rewrite Hn. split; [intros _; repeat split; assumption | reflexivity].
  - split; [| intros H; exfalso; exact (Hnot H)].
    destruct (temp_platform g); intros H; discriminate H.
Qed.

(** The last-placed stamp along a run: it is the reading taken at the
    last placement, and the initial stamp while there has been none. *)
Lemma play_last_placed (ticks : list Tick) (g : GameWindow) (none : Z) :
  none = temp_platform_last_placed g ->
  last_placement g ticks none = temp_platform_last_placed (play g ticks).
Proof.
  revert g none. induction ticks as [| t rest IH]; intros g none Hnone.
  - exact Hnone.
  - cbn [last_placement play fold_left]. apply IH.
    destruct (GameWindow_update_fixed (fst t) (snd t) g)
      as (_ & _ & _ & _ & ->).
    destruct (platform_appears (fst t) (snd t) g) eqn:Ha.
    + apply platform_appears_iff in Ha.
      destruct (place_platform_cases (fst t) (snd t) g)
        as [(_ & _ & _ & ->) | (Hnot & _)];
        [reflexivity | exfalso; exact (Hnot Ha)].
    + destruct (place_platform_cases (fst t) (snd t) g)
        as [(He & Hn & Hc & _) | (_ & ->)]; [| exact Hnone].
      assert (Ht : platform_appears (fst t) (snd t) g = true)
        by (apply platform_appears_iff; repeat split; assumption).
      rewrite Ht in Ha. discriminate Ha.
Qed.

(** C8 as stated fails.  At the start of the game the create key
    goes from not held to held, no transient platform is alive and there
    is no previous placement to wait for, yet no platform is created while
    the clock reads less than 5000 ms; at 5000 ms one is created.  The
    cooldown test reads the last-placed stamp, which the constructor sets
    to 0. *)
Lemma first_placement_waits_for_clock :
  create_held_before [] = false
  /\ down (only KB_DOWN) KB_DOWN = true
  /\ temp_platform GameWindow_new = None
  /\ placements GameWindow_new [] = 0%nat
  /\ temp_platform
       (place_platform (only KB_DOWN) (at_ms 1000%Z) GameWindow_new) = None
  /\ temp_platform
       (GameWindow_update (only KB_DOWN) (at_ms 1000%Z) GameWindow_new)
     = None
  /\ temp_platform
       (place_platform (only KB_DOWN) (at_ms 4999%Z) GameWindow_new) = None
  /\ temp_platform
       (place_platform (only KB_DOWN) (at_ms 5000%Z) GameWindow_new)
     = Some (new_temp_platform (player GameWindow_new)).
Proof.
  repeat split; vm_compute; reflexivity.
Qed.

(** C8, amended.  In every run of the game, the creation step of a frame
    creates a transient platform exactly when the create key was not held
    in the frame before (or there was none) and is held in this frame, no
    transient platform exists, and at least [platform_cooldown] = 5000 ms
    lie, in [unsigned long] arithmetic, between the clock reading stamped
    by the previous placement and the clock; while there has been no
    placement the stamp is 0, so that the first platform cannot be placed
    before the clock reads 5000.  The edge flag and the last-placed stamp
    hold these two values.  The platform placed is 100x15 and aqua, its
    centre is under the centre of the actor, its top is 2 below the bottom
    edge of the actor, and both stamps become the clock reading taken at
    the placement.  Otherwise platform and stamps are unchanged. *)
Theorem transient_platform_creation (ticks : list Tick) (input : Input)
    (clock : Millis) :
  let g := play GameWindow_new ticks in
  let g1 := place_platform input clock g in
  let previous := last_placement GameWindow_new ticks 0%Z in
  let created :=
    create_held_before ticks = false
    /\ down input KB_DOWN = true
    /\ temp_platform g = None
    /\ (platform_cooldown <= ulong_sub (ms_cooldown clock) previous)%Z in
  ((temp_platform g = None /\ temp_platform g1 <> None) <-> created)
  /\ down_pressed_last_frame g = create_held_before ticks
  /\ temp_platform_last_placed g = previous
  /\ (created ->
      exists t : Platform,
        temp_platform g1 = Some t
        /\ width t = 100 /\ height t = 15 /\ color t = AQUA
        /\ x t + width t / 2 == x (player g) + width (player g) / 2
        /\ y t == bottom (player g) + 2
        /\ temp_platform_created g1 = ms_placed clock
        /\ temp_platform_last_placed g1 = ms_placed clock)
  /\ (~ created ->
      temp_platform g1 = temp_platform g
      /\ temp_platform_created g1 = temp_platform_created g
      /\ temp_platform_last_placed g1 = temp_platform_last_placed g).
Proof.
  cbv zeta.
  pose proof (play_flag ticks GameWindow_new) as Hflag.
  change (down_pressed_last_frame GameWindow_new) with false in Hflag.
  fold (create_held_before ticks) in Hflag.
  pose proof (play_last_placed ticks GameWindow_new 0%Z eq_refl) as Hstamp.
  set (g := play GameWindow_new ticks) in *.
  assert (Hcreated :
            rising_edge input g = true /\ temp_platform g = None
            /\ cooldown_elapsed (ms_cooldown clock) g
            <-> create_held_before ticks = false
                /\ down input KB_DOWN = true
                /\ temp_platform g = None
                /\ (platform_cooldown
                    <= ulong_sub (ms_cooldown clock)
                         (last_placement GameWindow_new ticks 0%Z))%Z).
  { unfold rising_edge, cooldown_elapsed. rewrite Hflag, Hstamp.
    destruct (down input KB_DOWN), (create_held_before ticks);
      cbn [andb negb]; split;
      try (intros (H & _); discriminate H);
      try (intros (H1 & H2 & _); discriminate);
      try (intros (_ & H2 & H3); repeat split; assumption);
      intros (_ & _ & H2 & H3); repeat split; assumption. }
  split; [| split; [exact Hflag | split; [symmetry; exact Hstamp |]]].
  - rewrite <- Hcreated.
    destruct (place_platform_cases input clock g)
      as [(He & Hn & Hc & ->) | (Hnot & ->)].
    + split; [intros _; repeat split; assumption |].
      intros _. split; [exact Hn | discriminate].
    + split; [| intros H; exfalso; exact (Hnot H)].
      intros [Hn H]. exfalso. apply H. exact Hn.
  - rewrite <- Hcreated.
    destruct (place_platform_cases input clock g)
      as [(He & Hn & Hc & ->) | (Hnot & ->)].
    + split.
      * intros _. exists (new_temp_platform (player g)).
        unfold bottom. simpl. repeat split; try reflexivity; field.
      * intros H. exfalso. apply H. repeat split; assumption.
    + split; [intros H; exfalso; exact (Hnot H) |].
      intros _. repeat split; reflexivity.
Qed.

(** C9.  [rects_overlap a b] is true iff [a.x < b.x + b.width],
    [a.x + a.width > b.x], [a.y < b.y + b.height] and
    [a.y + a.height > b.y]; boxes that only touch along an edge or at a
    corner do not overlap. *)
Theorem rects_overlap_strict (a b : Objekt) :
  (rects_overlap a b = true
   <-> x a < x b + width b /\ x a + width a > x b
       /\ y a < y b + height b /\ y a + height a > y b)
  /\ (x a + width a == x b \/ x b + width b == x a
      \/ y a + height a == y b \/ y b + height b == y a ->
      rects_overlap a b = false).
Proof.
  unfold rects_overlap.
  destruct (dlt_spec (x a) (x b + width b));
    destruct (dgt_spec (x a + width a) (x b));
    destruct (dlt_spec (y a) (y b + height b));
    destruct (dgt_spec (y a + height a) (y b)); simpl;
    (split; [split; [intros H; try discriminate; repeat split; assumption
                    | intros (H1 & H2 & H3 & H4); try reflexivity;
                      exfalso; lra]
            | intros H; try reflexivity; exfalso; lra]).
Qed.

Lemma commit_fields (f : Frame) :
  y (commit f) = next_y f
  /\ height (commit f) = height (self f)
  /\ world_height (commit f) = world_height (self f)
  /\ velocity_y (commit f) = velocity_y (self f)
  /\ on_ground (commit f) = on_any_platform f.
Proof. repeat split; reflexivity. Qed.

Lemma update_collide_self (input : Input) (platforms : list Platform)
    (temp : option Platform) (p : Player) :
  height (self (update_collide input platforms temp p)) = height p
  /\ world_height (self (update_collide input platforms temp p))
     = world_height p.
Proof.
  destruct (update_commit_fixed input platforms temp p)
    as (_ & Fh & _ & Fwh & _).
  destruct (commit_fields (update_collide input platforms temp p))
    as (_ & Gh & Gwh & _).
  rewrite <- Gh, <- Gwh. split; assumption.
Qed.

Lemma update_collide_rising (input : Input) (platforms : list Platform)
    (temp : option Platform) (p : Player) :
  0 <= y p -> next_y (update_collide input platforms temp p) < 0 ->
  velocity_y (self (update_collide input platforms temp p))
  = velocity_y (update_velocity input p)
  /\ velocity_y (update_velocity input p) < 0
  /\ on_any_platform (update_collide input platforms temp p) = false.
Proof.
  intros Hy.
  destruct (update_velocity_base input p) as (Hb & _).
  assert (Hyq : y (update_velocity input p) = y p) by (rewrite Hb; reflexivity).
  destruct (update_collide_cases input platforms temp p)
    as [[-> _] | (on & _ & Hon & ->)];
    revert Hyq; [| revert Hon]; generalize (update_velocity input p);
    [intros q Hyq | intros q Hon Hyq]; simpl; intros Hneg.
  - repeat split; try reflexivity. rewrite Hyq in Hneg. lra.
  - exfalso. destruct Hon as (_ & Hab & _). rewrite Hyq in Hab. lra.
Qed.

(** C10.  The upper border is clamped differently from the lower one.
    When the [y] that leaves the platform loop is negative (and the actor
    is not taller than the world), the update ends with [y = 0], with the
    vertical velocity and the grounded flag as the platform loop left them;
    for an actor that started inside the world this velocity is the
    negative velocity computed by the jump and gravity steps, and the actor
    is not grounded.  When the bottom edge that leaves the platform loop is
    below the world, the update ends with the bottom edge on the lower
    border, vertical velocity 0 and the actor grounded. *)
Theorem ceiling_clamp_asymmetric (input : Input) (platforms : list Platform)
    (temp : option Platform) (p : Player) :
  let f := update_collide input platforms temp p in
  let p' := Player_update input platforms temp p in
  (height p <= world_height p -> next_y f < 0 ->
   y p' = 0
   /\ velocity_y p' = velocity_y (self f)
   /\ on_ground p' = on_any_platform f
   /\ (0 <= y p ->
       velocity_y p' = velocity_y (update_velocity input p)
       /\ velocity_y p' < 0
       /\ on_ground p' = false))
  /\ (world_height p < next_y f + height p ->
      y p' = world_height p - height p
      /\ velocity_y p' = 0
      /\ on_ground p' = true).
Proof.
  cbv zeta. unfold Player_update.
  set (f := update_collide input platforms temp p).
  destruct (refill_jumps_fixed (world_borders (commit f)))
    as (-> & _ & -> & -> & _).
  destruct (commit_fields f) as (Cy & Ch & Cwh & Cv & Cg).
  destruct (update_collide_self input platforms temp p) as (Sh & Swh).
  fold f in Sh, Swh.
  split.
  - intros Hfit Hneg.
    destruct (world_borders_ceiling (commit f)) as (-> & -> & ->).
    + rewrite Cy. exact Hneg.
    + rewrite Ch, Cwh, Sh, Swh. exact Hfit.
    + rewrite Cv, Cg.
      split; [reflexivity |]. split; [reflexivity |]. split; [reflexivity |].
      intros Hy.
      destruct (update_collide_rising input platforms temp p Hy Hneg)
        as (E1 & E2 & E3).
      fold f in E1, E3. rewrite E1, E3.
      split; [reflexivity |]. split; [exact E2 | reflexivity].
  - intros Hlow.
    destruct (world_borders_floor (commit f)) as (-> & -> & ->).
    + rewrite Cy, Ch, Cwh, Sh, Swh. exact Hlow.
    + rewrite Ch, Cwh, Sh, Swh. repeat split; reflexivity.
Qed.

Lemma scenario_rest (n : nat) :
  (landing_tick <= n)%nat ->
  bottom (scenario n) == 950
  /\ velocity_y (scenario n) = 0
  /\ on_ground (scenario n) = true.
Proof.
  intros Hn. replace n with (landing_tick + (n - landing_tick))%nat by lia.
  rewrite scenario_rests. apply scenario_lands.
Qed.

Lemma scenario_top (n : nat) : y (scenario n) <= 900.
Proof.
  destruct (Nat.lt_ge_cases n landing_tick) as [Hlt | Hge].
  - apply Qlt_le_weak. apply scenario_falls. exact Hlt.
  - destruct (scenario_rest n Hge) as (Hb & _).
    replace n with (landing_tick + (n - landing_tick))%nat in * by lia.
    rewrite scenario_rests in *. vm_compute. discriminate.
Qed.

(** C1, amended.  Let a platform of the snapshot pass the landing test of
    a tick: vertical velocity after gravity >= 0, current bottom edge at or
    above its top, tentative bottom edge at or below its top, tentative
    horizontal range overlapping.  Then the update ends grounded with
    vertical velocity 0; and if no platform that passes the test has a
    higher top, the actor starts with [y >= 0] and the top is not below the
    world, the bottom edge of the actor ends exactly on the top of the
    platform.  In the scenario (actor at (150,100) at rest, world
    2000x1000, one platform (0,950,2000,50), no input) the actor falls with
    positive velocity for ticks 1..56, lands on tick 57 with its bottom edge
    at 950 and velocity 0, rests there on every later tick, and its [y]
    never exceeds 900. *)
Theorem landing_resolution :
  (forall (input : Input) (platforms : list Platform)
          (temp : option Platform) (p : Player) (plat : Platform),
      In plat (all_platforms platforms temp) ->
      passes_landing_test (update_velocity input p) plat ->
      on_ground (Player_update input platforms temp p) = true
      /\ velocity_y (Player_update input platforms temp p) = 0
      /\ ((forall other, In other (all_platforms platforms temp) ->
             passes_landing_test (update_velocity input p) other ->
             y plat <= y other) ->
          0 <= y p -> y plat <= world_height p ->
          bottom (Player_update input platforms temp p) == y plat))
  /\ (forall n, (n < landing_tick)%nat ->
        y (scenario n) < 900 /\ on_ground (scenario n) = false
        /\ ((0 < n)%nat -> 0 < velocity_y (scenario n)))
  /\ (forall n, (landing_tick <= n)%nat ->
        bottom (scenario n) == 950
        /\ velocity_y (scenario n) = 0
        /\ on_ground (scenario n) = true)
  /\ (forall n, y (scenario n) <= 900).
Proof.
  split; [exact Player_update_lands |].
  split; [exact scenario_falls |].
  split; [exact scenario_rest | exact scenario_top].
Qed.

(** ** Exactness of the arithmetic on reachable states *)

Lemma half_integer_eq (a b : double) :
  a == b -> half_integer a -> half_integer b.
Proof. intros Hab [k Hk]. exists k. rewrite <- Hab. exact Hk. Qed.

Lemma half_integer_Z (n : Z) : half_integer (inject_Z n).
Proof.
  exists (2 * n)%Z. unfold Qeq, inject_Z. cbn [Qnum Qden]. lia.
Qed.

Lemma half_integer_half (k : Z) : half_integer (k # 2).
Proof. exists k. reflexivity. Qed.

Lemma half_integer_plus (a b : double) :
  half_integer a -> half_integer b -> half_integer (a + b).
Proof.
  intros [k Hk] [m Hm]. exists (k + m)%Z. rewrite Hk, Hm.
  unfold Qeq, Qplus. cbn [Qnum Qden]. lia.
Qed.

Lemma half_integer_minus (a b : double) :
  half_integer a -> half_integer b -> half_integer (a - b).
Proof.
  intros [k Hk] [m Hm]. exists (k - m)%Z. rewrite Hk, Hm.
  unfold Qeq, Qminus, Qplus, Qopp. cbn [Qnum Qden]. lia.
Qed.

Lemma half_integer_0 : half_integer 0.
Proof. exact (half_integer_Z 0). Qed.

Create HintDb halves discriminated.
#[local] Hint Resolve half_integer_0 half_integer_Z half_integer_half
  half_integer_plus half_integer_minus : halves.

(** A negative half-integer is at most -1/2. *)
Lemma half_integer_negative (v : double) :
  half_integer v -> v < 0 -> v <= - (1 # 2).
Proof.
  intros [k Hk] Hneg. rewrite Hk in *.
  unfold Qlt, Qle in *. cbn [Qnum Qden Qopp] in *. lia.
Qed.

(** *** The values one update can produce *)

Lemma update_velocity_values (input : Input) (p : Player) :
  (velocity_x (update_velocity input p) = 0
   \/ velocity_x (update_velocity input p) = 0 - move_speed
   \/ velocity_x (update_velocity input p) = 0 + move_speed
   \/ velocity_x (update_velocity input p) = 0 - move_speed + move_speed)
  /\ (velocity_y (update_velocity input p) = jump_strength + gravity
      \/ velocity_y (update_velocity input p) = velocity_y p + gravity).
Proof.
  unfold update_velocity, update_gravity, update_jump, update_move.
  destruct (down input KB_LEFT), (down input KB_RIGHT), (down input KB_UP);
    cbn [velocity_x velocity_y set_velocity_x set_velocity_y
           set_jump_in_progress set_jumps_available set_on_ground];
    try destruct (can_jump _);
    cbn [velocity_x velocity_y set_velocity_x set_velocity_y
           set_jump_in_progress set_jumps_available set_on_ground];
    tauto.
Qed.

Lemma world_borders_values (p : Player) :
  (x (world_borders p) = x p \/ x (world_borders p) = 0
   \/ x (world_borders p) = world_width p - width p)
  /\ ((y (world_borders p) = y p
       /\ velocity_y (world_borders p) = velocity_y p)
      \/ (y p < 0 /\ y (world_borders p) = 0
          /\ velocity_y (world_borders p) = velocity_y p)
      \/ (y (world_borders p) = world_height p - height p
          /\ velocity_y (world_borders p) = 0)).
Proof. borders p; tauto. Qed.

Lemma Player_update_values (input : Input) (platforms : list Platform)
    (temp : option Platform) (p : Player) :
  velocity_x (Player_update input platforms temp p)
  = velocity_x (update_velocity input p)
  /\ (x (Player_update input platforms temp p)
      = x p + velocity_x (update_velocity input p)
      \/ x (Player_update input platforms temp p) = 0
      \/ x (Player_update input platforms temp p)
         = world_width p - width p)
  /\ ((velocity_y (Player_update input platforms temp p)
       = velocity_y (update_velocity input p)
       /\ (y (Player_update input platforms temp p)
           = y p + velocity_y (update_velocity input p)
           \/ (y p + velocity_y (update_velocity input p) < 0
               /\ y (Player_update input platforms temp p) = 0)))
      \/ (velocity_y (Player_update input platforms temp p) = 0
          /\ (y (Player_update input platforms temp p) = 0
              \/ y (Player_update input platforms temp p)
                 = world_height p - height p
              \/ exists on,
                  In on (all_platforms platforms temp)
                  /\ y (Player_update input platforms temp p)
                     = y on - height p))).
Proof.
  unfold Player_update.
  set (c := commit (update_collide input platforms temp p)).
  destruct (refill_jumps_fixed (world_borders c)) as (-> & -> & -> & _).
  destruct (world_borders_fixed c) as (_ & _ & -> & _).
  destruct (world_borders_values c) as (Hx & Hy).
  destruct (update_commit_fixed input platforms temp p)
    as (Fw & Fh & Fww & Fwh & _).
  fold c in Fw, Fh, Fww, Fwh. rewrite Fw, Fh, Fww, Fwh in *.
  destruct (update_velocity_base input p) as (Hb & _).
  assert (Hc : velocity_x c = velocity_x (update_velocity input p)
               /\ x c = x p + velocity_x (update_velocity input p)
               /\ ((velocity_y c = velocity_y (update_velocity input p)
                    /\ y c = y p + velocity_y (update_velocity input p))
                   \/ (velocity_y c = 0
                       /\ exists on, In on (all_platforms platforms temp)
                                     /\ y c = y on - height p))).
  { subst c.
    destruct (update_collide_cases input platforms temp p)
      as [[-> _] | (on & Hin & _ & ->)];
      revert Hb; generalize (update_velocity input p); intros q Hb;
      cbn [commit frame_init landed self next_x next_y on_any_platform
             set_x set_y set_on_ground set_velocity_y velocity_x velocity_y
             Player_base x y height]; rewrite Hb.
    - split; [reflexivity |]. split; [reflexivity |].
      left. split; reflexivity.
    - split; [reflexivity |]. split; [reflexivity |].
      right. split; [reflexivity |]. exists on. split; [exact Hin |].
      reflexivity. }
  destruct Hc as (Hvx & Hxc & Hyc).
  split; [exact Hvx |]. split.
  - rewrite <- Hxc. exact Hx.
  - destruct Hyc as [[Hv Hyc] | [Hv (on & Hin & Hyc)]];
      destruct Hy as [[Hy1 Hy2] | [(Hneg & Hy1 & Hy2) | [Hy1 Hy2]]];
      rewrite ?Hy1, ?Hy2, ?Hv.
    + left. split; [reflexivity |]. left. exact Hyc.
    + left. split; [reflexivity |]. right. split; [| reflexivity].
      rewrite <- Hyc. exact Hneg.
    + right. split; [reflexivity |]. right. left. reflexivity.
    + right. split; [reflexivity |]. right. right. exists on.
      split; [exact Hin | exact Hyc].
    + right. split; [reflexivity |]. left. reflexivity.
    + right. split; [reflexivity |]. right. left. reflexivity.
Qed.

(** *** The motion of the actor *)

Lemma fall_energy (v h : double) :
  0 <= v -> v * v + v / 2 <= h ->
  (v + gravity) * (v + gravity) + (v + gravity) / 2 <= h + (v + gravity).
Proof.
  intros Hv He. unfold gravity.
  setoid_replace ((v + (1 # 2)) * (v + (1 # 2)) + (v + (1 # 2)) / 2)
    with (v * v + v / 2 + (v + (1 # 2))) by field.
  lra.
Qed.

Lemma Player_update_kinematic (input : Input) (platforms : list Platform)
    (temp : option Platform) (p : Player) :
  0 <= y p ->
  0 <= y (Player_update input platforms temp p) ->
  half_integer (world_width p - width p) ->
  half_integer (world_height p - height p) ->
  half_integer (height p) ->
  (forall plat, In plat (all_platforms platforms temp) ->
                half_integer (y plat)) ->
  kinematic_invariant p ->
  kinematic_invariant (Player_update input platforms temp p).
Proof.
  intros Hy Hy' Hww Hwh Hh Hplats (Kx & Ky & Kvx & Kvy & Kl & Kr & Kj & Ke).
  destruct (Player_update_values input platforms temp p) as (Vvx & Vx & Vy).
  destruct (update_velocity_values input p) as (Qvx & Qvy).
  revert Vvx Vx Vy Qvx Qvy Hy'.
  generalize (velocity_x (update_velocity input p)).
  generalize (velocity_y (update_velocity input p)).
  generalize (Player_update input platforms temp p).
  intros p' vy vx Vvx Vx Vy Qvx Qvy Hy'.
  assert (Hvx : half_integer vx /\ - move_speed <= vx /\ vx <= move_speed).
  { unfold move_speed.
    destruct Qvx as [-> | [-> | [-> | ->]]];
      (split; [| split; [vm_compute; discriminate | vm_compute; discriminate]]).
    - exact (half_integer_Z 0).
    - exists (-6)%Z. reflexivity.
    - exists 6%Z. reflexivity.
    - exists 0%Z. reflexivity. }
  assert (Hvy : half_integer vy /\ jump_strength + gravity <= vy
                /\ (0 <= vy -> vy = velocity_y p + gravity)).
  { destruct Qvy as [-> | ->].
    - split; [exists (-19)%Z; reflexivity |].
      split; [apply Qle_refl |]. intros H. exfalso. revert H.
      vm_compute. intros H. apply H. reflexivity.
    - split; [apply half_integer_plus;
              [exact Kvy | exists 1%Z; reflexivity] |].
      split; [unfold gravity, jump_strength in *; lra | reflexivity]. }
  destruct Hvx as (Hvx1 & Hvx2 & Hvx3). destruct Hvy as (Hvy1 & Hvy2 & Hvy3).
  unfold kinematic_invariant. rewrite Vvx.
  assert (Hx' : half_integer (x p')).
  { destruct Vx as [-> | [-> | ->]]; auto with halves. }
  split; [exact Hx' |].
  destruct Vy as [[-> Vy] | [-> Vy]].
  - assert (Hyp : half_integer (y p')).
    { destruct Vy as [-> | [_ ->]]; auto with halves. }
    split; [exact Hyp |]. split; [exact Hvx1 |]. split; [exact Hvy1 |].
    split; [exact Hvx2 |]. split; [exact Hvx3 |].
    split; [unfold gravity, jump_strength in *; lra |].
    intros Hpos. destruct Vy as [-> | [Hneg _]]; [| exfalso; lra].
    pose proof (Hvy3 Hpos) as E. subst vy.
    destruct (Qlt_le_dec (velocity_y p) 0) as [Hn | Hp].
    + apply (half_integer_negative _ Kvy) in Hn.
      assert (Hz : velocity_y p + gravity == 0)
        by (unfold gravity in *; lra).
      rewrite Hz. setoid_replace (0 * 0 + 0 / 2) with 0 by reflexivity. lra.
    + apply fall_energy; [exact Hp | exact (Ke Hp)].
  - assert (Hyp : half_integer (y p')).
    { destruct Vy as [-> | [-> | (on & Hin & ->)]]; auto with halves. }
    split; [exact Hyp |]. split; [exact Hvx1 |].
    split; [exact half_integer_0 |].
    split; [exact Hvx2 |]. split; [exact Hvx3 |].
    split; [vm_compute; discriminate |].
    intros _. setoid_replace (0 * 0 + 0 / 2) with 0 by reflexivity.
    exact Hy'.
Qed.

(** *** The game *)

Lemma level_platforms_half_integer (plat : Platform) :
  In plat level_platforms -> half_integer (y plat).
Proof.
  unfold level_platforms. simpl.
  intros [<- | [<- | [<- | [<- | [<- | [<- | [<- | []]]]]]]];
    apply half_integer_Z.
Qed.

Lemma snapshot_half_integer (g : GameWindow) (temp : option Platform)
    (plat : Platform) :
  platforms g = level_platforms -> transient_ok temp ->
  In plat (all_platforms (platforms g) temp) -> half_integer (y plat).
Proof.
  intros -> Hok Hin. unfold all_platforms in Hin.
  apply in_app_or in Hin. destruct Hin as [Hin | Hin].
  - apply level_platforms_half_integer. exact Hin.
  - destruct temp as [t |]; [| destruct Hin].
    destruct Hin as [<- | []]. apply Hok.
Qed.

Lemma new_temp_platform_ok (p : Player) :
  level_player p -> inside_world p -> half_integer (x p) ->
  half_integer (y p) -> transient_ok (Some (new_temp_platform p)).
Proof.
  intros (Hw & Hh & Hww & Hwh & _) (Hx0 & Hx1 & Hy0 & Hy1) Kx Ky.
  rewrite Hw, Hh, Hww, Hwh in *.
  unfold GameWindow_world_width, GameWindow_world_height in *.
  unfold transient_ok, new_temp_platform, Platform_new.
  cbn [x y width height Platform_base]. rewrite Hw, Hh.
  assert (Ex : x p + 50 / 2 - 100 / 2 == x p - 25) by field.
  assert (Ey : y p + 50 + 2 == y p + 52) by field.
  split; [apply (half_integer_eq (x p - 25)); [symmetry; exact Ex |];
          apply half_integer_minus; [exact Kx | exact (half_integer_Z 25)] |].
  split; [apply (half_integer_eq (y p + 52)); [symmetry; exact Ey |];
          apply half_integer_plus; [exact Ky | exact (half_integer_Z 52)] |].
  rewrite Ex, Ey. repeat split; try reflexivity; lra.
Qed.

Lemma place_platform_transient (input : Input) (clock : Millis)
    (g : GameWindow) :
  exactness_invariant g ->
  transient_ok (temp_platform (place_platform input clock g)).
Proof.
  intros ((Hlevel & Hin & _) & (Kx & Ky & _) & Hok).
  destruct (place_platform_cases input clock g)
    as [(_ & _ & _ & ->) | (_ & ->)].
  - apply new_temp_platform_ok; assumption.
  - exact Hok.
Qed.

Lemma expire_platform_transient (clock : Millis) (g : GameWindow) :
  transient_ok (temp_platform g) ->
  transient_ok (temp_platform (expire_platform clock g)).
Proof.
  intros Hok.
  destruct (expire_platform_fixed clock g)
    as (_ & _ & _ & _ & _ & _ & [-> | ->]); [exact Hok | exact I].
Qed.

Lemma respawned_kinematic (p : Player) :
  level_player p -> respawned p -> kinematic_invariant p.
Proof.
  intros (_ & _ & _ & _ & Hsx & Hsy) (Hx & Hy & Hvx & Hvy & _).
  unfold kinematic_invariant. rewrite Hx, Hy, Hvx, Hvy, Hsx, Hsy.
  split; [exact (half_integer_Z 150) |].
  split; [exact (half_integer_Z 100) |].
  split; [exact (half_integer_Z 0) |].
  split; [exact (half_integer_Z 0) |].
  repeat split; try (vm_compute; discriminate).
Qed.

Lemma exactness_invariant_new : exactness_invariant GameWindow_new.
Proof.
  split; [apply game_invariant_new |]. split; [| exact I].
  unfold kinematic_invariant. simpl.
  split; [exact (half_integer_Z 150) |].
  split; [exact (half_integer_Z 100) |].
  split; [exact (half_integer_Z 0) |].
  split; [exact (half_integer_Z 0) |].
  repeat split; try (vm_compute; discriminate).
Qed.

Lemma exactness_invariant_update (input : Input) (clock : Millis)
    (g : GameWindow) :
  exactness_invariant g ->
  exactness_invariant (GameWindow_update input clock g).
Proof.
  intros Hinv.
  pose proof (place_platform_transient input clock g Hinv) as Hplace.
  apply (expire_platform_transient clock) in Hplace.
  destruct Hinv as (Hgame & Hkin & Hok).
  pose proof (game_invariant_update input clock g Hgame) as Hgame'.
  destruct (GameWindow_update_fixed input clock g) as (_ & _ & Ft & _).
  split; [exact Hgame' |]. split; [| rewrite Ft; exact Hplace].
  destruct Hgame' as (Hlevel' & Hin' & _).
  revert Hlevel' Hin'.
  rewrite GameWindow_update_player, player_before_hazards_eq.
  set (temp := temp_platform
                 (expire_platform clock (place_platform input clock g))).
  fold temp in Hplace.
  set (p1 := Player_update input (platforms g) temp (player g)).
  intros Hlevel' Hin'.
  destruct (check_obstacles_cases (obstacles g) p1) as [Hsame | Hdead].
  - rewrite Hsame in *.
    destruct Hgame as ((Hw & Hh & Hww & Hwh & _) & (_ & _ & Hy0 & _)
                       & _ & Hplats & _).
    apply Player_update_kinematic.
    + exact Hy0.
    + apply Hin'.
    + rewrite Hw, Hww. exact (half_integer_Z 1950).
    + rewrite Hh, Hwh. exact (half_integer_Z 950).
    + rewrite Hh. exact (half_integer_Z 50).
    + intros plat. apply snapshot_half_integer; assumption.
    + exact Hkin.
  - apply respawned_kinematic; assumption.
Qed.

Lemma reachable_exactness (g : GameWindow) :
  reachable g -> exactness_invariant g.
Proof.
  induction 1 as [| input clock g _ IH].
  - apply exactness_invariant_new.
  - apply exactness_invariant_update. exact IH.
Qed.

Lemma fall_speed_bound (v h : double) :
  0 <= v -> v * v + v / 2 <= h -> h <= 950 -> v <= 31.
Proof.
  intros Hv He Hh. apply Qnot_lt_le. intros Hbig.
  assert (Hsq : 31 * v <= v * v).
  { apply Qmult_le_compat_r; [apply Qlt_le_weak; exact Hbig | exact Hv]. }
  assert (Hhalf : 0 <= v / 2).
  { apply Qle_shift_div_l; [reflexivity | lra]. }
  lra.
Qed.

Lemma exact_Z (n : Z) : (-4096 <= n <= 4096)%Z -> exact (inject_Z n).
Proof.
  intros Hn. split; [apply half_integer_Z |].
  unfold Qle, inject_Z. cbn [Qnum Qden Qopp]. lia.
Qed.

Lemma exact_box (bx bt bw bh : Z) (o : Objekt) :
  o = mkObjekt (inject_Z bx) (inject_Z bt) (inject_Z bw) (inject_Z bh) ->
  (-4096 <= bx <= 4096)%Z -> (-4096 <= bt <= 4096)%Z ->
  (-4096 <= bw <= 4096)%Z -> (-4096 <= bh <= 4096)%Z ->
  exact (x o) /\ exact (y o) /\ exact (width o) /\ exact (height o).
Proof.
  intros -> Hx Hy Hw Hh. cbn [x y width height].
  repeat split; try apply half_integer_Z;
    unfold Qle, inject_Z; cbn [Qnum Qden Qopp]; lia.
Qed.

Lemma level_platforms_exact : Forall exact_platform level_platforms.
Proof.
  unfold level_platforms, exact_platform, Platform_new.
  repeat apply Forall_cons; try apply Forall_nil;
    cbn [Platform_base];
    match goal with
    | |- exact (x (mkObjekt ?a ?b ?c ?d)) /\ _ =>
        apply (exact_box (Qnum a) (Qnum b) (Qnum c) (Qnum d));
          [reflexivity | cbn [Qnum]; lia ..]
    end.
Qed.

Lemma level_obstacles_exact :
  Forall (fun o : Obstacle =>
            exact (x o) /\ exact (y o) /\ exact (width o) /\ exact (height o))
    level_obstacles.
Proof.
  unfold level_obstacles, Obstacle_new.
  repeat apply Forall_cons; try apply Forall_nil;
    cbn [Obstacle_base];
    match goal with
    | |- exact (x (mkObjekt ?a ?b ?c ?d)) /\ _ =>
        apply (exact_box (Qnum a) (Qnum b) (Qnum c) (Qnum d));
          [reflexivity | cbn [Qnum]; lia ..]
    end.
Qed.

(** In every state the game reaches, each double stored in the actor, the
    platforms and the obstacles is a multiple of 1/2 of magnitude at most
    4096, and the actor falls at no more than 31 per tick. *)
Theorem reachable_doubles_exact (g : GameWindow) :
  reachable g -> exact_game g /\ velocity_y (player g) <= 31.
Proof.
  intros Hg. apply reachable_exactness in Hg.
  destruct Hg as (((Hw & Hh & Hww & Hwh & Hsx & Hsy)
                   & (Hx0 & Hx1 & Hy0 & Hy1) & _ & Hplats & Hobs)
                  & (Kx & Ky & Kvx & Kvy & Kl & Kr & Kj & Ke) & Hok).
  rewrite Hw, Hh, Hww, Hwh in *.
  unfold GameWindow_world_width, GameWindow_world_height, move_speed,
    jump_strength in *.
  assert (Hv : velocity_y (player g) <= 31).
  { destruct (Qlt_le_dec (velocity_y (player g)) 0) as [Hn | Hp]; [lra |].
    apply (fall_speed_bound _ (y (player g)));
      [exact Hp | exact (Ke Hp) | lra]. }
  split; [| exact Hv].
  unfold exact_game, exact_player, exact.
  rewrite Hw, Hh, Hww, Hwh, Hsx, Hsy, Hplats, Hobs.
  split; [| split].
  - repeat split;
      try assumption; try apply half_integer_Z; try lra;
      vm_compute; discriminate.
  - unfold all_platforms. apply Forall_app. split.
    + exact level_platforms_exact.
    + destruct (temp_platform g) as [t |]; [| apply Forall_nil].
      apply Forall_cons; [| apply Forall_nil].
      destruct Hok as (Tx & Ty & Tx0 & Tx1 & Ty0 & Ty1 & Tw & Th).
      unfold exact_platform, exact. rewrite Tw, Th.
      repeat split;
        try assumption; try apply half_integer_Z; try lra;
        vm_compute; discriminate.
  - exact level_obstacles_exact.
Qed.

(** ** Further properties of the overlap test and the obstacle loop *)

(** The overlap test does not depend on the order of its arguments. *)
Theorem rects_overlap_sym (a b : Objekt) :
  rects_overlap a b = rects_overlap b a.
Proof.
  unfold rects_overlap, dgt.
  destruct (dlt (x a) (x b + width b)), (dlt (x b) (x a + width a)),
    (dlt (y a) (y b + height b)), (dlt (y b) (y a + height a));
    reflexivity.
Qed.

(** A box of the game, whose coordinates and sides are multiples of 1/2
    of magnitude at most 4096 so that the sums of the test are exact,
    overlaps itself exactly when both its sides are positive. *)
Theorem rects_overlap_self (a : Objekt) :
  exact_objekt a ->
  (rects_overlap a a = true <-> 0 < width a /\ 0 < height a).
Proof.
  intros _. unfold rects_overlap, dgt.
  destruct (dlt_spec (x a) (x a + width a)) as [Hw | Hw];
    destruct (dlt_spec (y a) (y a + height a)) as [Hh | Hh];
    cbn [andb]; split;
    try (intros H; discriminate H);
    try (intros _; split; lra);
    try reflexivity;
    intros [H1 H2]; exfalso; lra.
Qed.

(** The obstacle loop either finds no overlap and leaves the actor as it
    is, or ends with a respawned actor. *)
Lemma check_obstacles_clear (obs : list Obstacle) (p : Player) :
  ((forall obstacle, In obstacle obs -> rects_overlap p obstacle = false)
   /\ check_obstacles obs p = p)
  \/ respawned (check_obstacles obs p).
Proof.
  revert p. induction obs as [| obstacle rest IH]; intros p.
  - left. split; [intros obstacle [] | reflexivity].
  - rewrite check_obstacles_cons.
    destruct (hit_cases p obstacle) as [[_ ->] | [Hmiss ->]].
    + right. apply check_obstacles_respawned, die_respawned.
    + destruct (IH p) as [[Hrest Heq] | Hdead]; [left | right; exact Hdead].
      split; [| exact Heq].
      intros ob [<- | Hin]; [exact Hmiss | apply Hrest; exact Hin].
Qed.

Lemma check_obstacles_miss (obs : list Obstacle) (p : Player) :
  (forall obstacle, In obstacle obs -> rects_overlap p obstacle = false) ->
  check_obstacles obs p = p.
Proof.
  induction obs as [| obstacle rest IH]; intros Hclear.
  - reflexivity.
  - rewrite check_obstacles_cons.
    destruct (hit_cases p obstacle) as [[Hhit _] | [_ ->]].
    + rewrite (Hclear obstacle (or_introl eq_refl)) in Hhit. discriminate.
    + apply IH. intros ob Hin. apply Hclear. right. exact Hin.
Qed.

(** Without an overlap nothing happens: the tick ends with the actor that
    [Player::update] produced. *)
Theorem no_overlap_no_respawn (input : Input) (clock : Millis)
    (g : GameWindow) :
  (forall obstacle, In obstacle (obstacles g) ->
     rects_overlap (player_before_hazards input clock g) obstacle = false) ->
  player (GameWindow_update input clock g)
  = player_before_hazards input clock g.
Proof.
  intros Hclear. rewrite GameWindow_update_player.
  apply check_obstacles_miss. exact Hclear.
Qed.

(** The obstacle check of a tick never writes the grounded flag, the jump
    latch, the size, the world or the spawn point of the actor. *)
Theorem obstacle_check_fixed (input : Input) (clock : Millis)
    (g : GameWindow) :
  let before := player_before_hazards input clock g in
  let after := player (GameWindow_update input clock g) in
  on_ground after = on_ground before
  /\ jump_in_progress after = jump_in_progress before
  /\ width after = width before /\ height after = height before
  /\ world_width after = world_width before
  /\ world_height after = world_height before
  /\ spawn_x after = spawn_x before /\ spawn_y after = spawn_y before.
Proof.
  cbv zeta. rewrite GameWindow_update_player.
  destruct (check_obstacles_fixed (obstacles g)
              (player_before_hazards input clock g))
    as (-> & -> & -> & -> & -> & -> & -> & ->).
  repeat split; reflexivity.
Qed.

Lemma spawn_clear (o : Objekt) (obstacle : Obstacle) :
  x o = 150 -> y o = 100 -> width o = 50 -> height o = 50 ->
  In obstacle level_obstacles -> rects_overlap o obstacle = false.
Proof.
  destruct o as [ox oy ow oh]. cbn [x y width height].
  intros -> -> -> -> Hin. unfold level_obstacles in Hin. simpl in Hin.
  destruct Hin as [<- | [<- | [<- | [<- | []]]]]; vm_compute; reflexivity.
Qed.

(** The actor never ends a frame inside an obstacle: in every state the
    game reaches, its box overlaps no obstacle. *)
Theorem reachable_clear_of_obstacles (g : GameWindow) :
  reachable g ->
  forall obstacle, In obstacle (obstacles g) ->
    rects_overlap (player g) obstacle = false.
Proof.
  intros Hg. pose proof (reachable_invariant g Hg) as Hinv. revert Hinv.
  destruct Hg as [| input clock g Hg].
  - intros _ obstacle Hin. apply spawn_clear; try reflexivity. exact Hin.
  - intros ((Hw & Hh & _ & _ & Hsx & Hsy) & _ & _ & _ & Hobs).
    destruct (GameWindow_update_fixed input clock g) as (_ & Fo & _).
    rewrite Fo in *. revert Hw Hh Hsx Hsy.
    rewrite GameWindow_update_player.
    generalize (player_before_hazards input clock g). intros p.
    intros Hw Hh Hsx Hsy obstacle Hin.
    destruct (check_obstacles_clear (obstacles g) p)
      as [[Hclear Heq] | (Hx & Hy & _)].
    + rewrite Heq. apply Hclear. exact Hin.
    + rewrite Hobs in Hin. apply spawn_clear; try assumption; congruence.
Qed.

(** ** Further properties of [Player::update] *)

Section UpdateMore.

Variable input : Input.
Variable platforms : list Platform.
Variable temp : option Platform.
Variable p : Player.

Local Abbreviation q := (update_velocity input p).
Local Abbreviation f := (update_collide input platforms temp p).
Local Abbreviation p' := (Player_update input platforms temp p).

(** A rising actor is not tested successfully against any platform. *)
Lemma rising_passes : velocity_y q < 0 -> f = frame_init q.
Proof.
  intros Hup.
  destruct (update_collide_cases input platforms temp p)
    as [[Hf _] | (on & _ & (Hv & _) & _)]; [exact Hf | exfalso; lra].
Qed.

(** The frame that enters the platform loop, committed. *)
Lemma commit_frame_init :
  y (commit (frame_init q)) = y p + velocity_y q
  /\ x (commit (frame_init q)) = x p + velocity_x q
  /\ height (commit (frame_init q)) = height p
  /\ width (commit (frame_init q)) = width p
  /\ world_height (commit (frame_init q)) = world_height p
  /\ world_width (commit (frame_init q)) = world_width p
  /\ velocity_y (commit (frame_init q)) = velocity_y q
  /\ on_ground (commit (frame_init q)) = false.
Proof.
  destruct (update_velocity_base input p) as (Hb & Hww & Hwh & _).
  revert Hb Hww Hwh. generalize q. intros q0 Hb Hww Hwh.
  cbn [commit frame_init self next_x next_y on_any_platform set_x set_y
         set_on_ground Player_base x y width height world_height world_width
         velocity_y on_ground].
  rewrite Hb, Hww, Hwh. repeat split; reflexivity.
Qed.

(** From inside the world a rising actor ends the update airborne, with
    the velocity it had when the platform loop started. *)
Lemma rising_update :
  velocity_y q < 0 ->
  0 <= y p -> y p + height p <= world_height p ->
  on_ground p' = false
  /\ velocity_y p' = velocity_y q
  /\ (y p' = y p + velocity_y q
      \/ (y p + velocity_y q < 0 /\ y p' = 0)).
Proof.
  intros Hup Hy Hfit. unfold Player_update. rewrite (rising_passes Hup).
  destruct (refill_jumps_fixed (world_borders (commit (frame_init q))))
    as (-> & _ & -> & -> & _).
  destruct commit_frame_init as (Cy & _ & Ch & _ & Cwh & _ & Cv & Cg).
  destruct (Qlt_le_dec (y p + velocity_y q) 0) as [Hneg | Hpos].
  - destruct (world_borders_ceiling (commit (frame_init q)))
      as (-> & -> & ->).
    + rewrite Cy. exact Hneg.
    + rewrite Ch, Cwh. lra.
    + rewrite Cv, Cg. split; [reflexivity |]. split; [reflexivity |].
      right. split; [exact Hneg | reflexivity].
  - destruct (world_borders_keep (commit (frame_init q)))
      as (-> & -> & ->).
    + rewrite Cy. exact Hpos.
    + rewrite Cy, Ch, Cwh. lra.
    + rewrite Cv, Cg, Cy. split; [reflexivity |]. split; [reflexivity |].
      left. reflexivity.
Qed.

(** Platforms are one-way: an actor that moves upward after the jump and
    gravity steps is stopped by no platform, the platform loop leaves its
    frame as it is.  From inside the world it ends the update airborne,
    with that velocity, at [y + velocity_y] or on the upper border. *)
Theorem platforms_one_way :
  velocity_y q < 0 ->
  f = frame_init q
  /\ (0 <= y p -> y p + height p <= world_height p ->
      on_ground p' = false
      /\ velocity_y p' = velocity_y q
      /\ (y p' = y p + velocity_y q
          \/ (y p + velocity_y q < 0 /\ y p' = 0))).
Proof.
  intros Hup. split.
  - exact (rising_passes Hup).
  - intros Hy Hfit. exact (rising_update Hup Hy Hfit).
Qed.

(** A jump that fires takes off: from inside the world the update ends
    airborne with velocity [jump_strength + gravity], one unit of budget
    less and the latch set; no platform can cancel it. *)
Theorem jump_takes_off :
  jump_fires input p = true ->
  0 <= y p -> y p + height p <= world_height p ->
  on_ground p' = false
  /\ velocity_y p' = jump_strength + gravity
  /\ jumps_available p' = (jumps_available p - 1)%Z
  /\ jump_in_progress p' = true.
Proof.
  intros Hfire Hy Hfit.
  assert (Hfire' : jump_fires input (update_move input p) = true).
  { unfold jump_fires in *. rewrite can_jump_update_move. exact Hfire. }
  destruct (update_jump_fires _ _ Hfire') as (Hv & _).
  destruct (update_jump_fires _ _ Hfire) as (_ & _ & Hj & Hl).
  destruct (update_velocity_jump input p) as (Qv & _).
  rewrite Hv in Qv.
  assert (Hup : velocity_y q < 0).
  { rewrite Qv. vm_compute. reflexivity. }
  destruct (rising_update Hup Hy Hfit) as (Hg & Hvy & _).
  split; [exact Hg |]. split; [rewrite Hvy; exact Qv |].
  split.
  - rewrite Player_update_budget, Hg. exact Hj.
  - rewrite Player_update_latch. exact Hl.
Qed.

(** The budget grows only on the ground: an update that ends airborne
    leaves it as it was, or one lower if the jump fired. *)
Theorem budget_only_refilled_on_ground :
  (on_ground p' = false ->
   jumps_available p'
   = if jump_fires input p then (jumps_available p - 1)%Z
     else jumps_available p)
  /\ ((jumps_available p < jumps_available p')%Z -> on_ground p' = true).
Proof.
  assert (Hair : on_ground p' = false ->
                 jumps_available p'
                 = if jump_fires input p then (jumps_available p - 1)%Z
                   else jumps_available p).
  { intros Hg. rewrite Player_update_budget, Hg. apply update_jump_budget. }
  split; [exact Hair |].
  intros Hmore. destruct (on_ground p') eqn:Hg; [reflexivity |].
  exfalso. rewrite (Hair eq_refl) in Hmore.
  destruct (jump_fires input p); lia.
Qed.

(** With a platform that passes the landing test the loop ends landed on
    the highest platform that does. *)
Lemma lands_on_highest :
  (exists plat, In plat (all_platforms platforms temp)
                /\ passes_landing_test q plat) ->
  exists on,
    In on (all_platforms platforms temp)
    /\ passes_landing_test q on
    /\ (forall other, In other (all_platforms platforms temp) ->
          passes_landing_test q other -> y on <= y other)
    /\ f = landed q on
    /\ on_ground p' = true /\ velocity_y p' = 0
    /\ (0 <= y p -> y on <= world_height p -> bottom p' == y on).
Proof.
  intros (plat & Hin & Hpass). unfold update_collide.
  destruct (loop_state_resolve q (all_platforms platforms temp))
    as [Hnone | on Hon Hpon Hmin].
  - exfalso. exact (Hnone plat Hin Hpass).
  - exists on.
    destruct (Player_update_lands input platforms temp p on Hon Hpon)
      as (Hg & Hv & Hb).
    split; [exact Hon |]. split; [exact Hpon |]. split; [exact Hmin |].
    split; [reflexivity |]. split; [exact Hg |]. split; [exact Hv |].
    intros Hy Hw. apply Hb; assumption.
Qed.


End UpdateMore.

(** Standing is stable: an actor at rest on a platform, whose jump does
    not fire and whose tentative horizontal range still overlaps the
    platform, ends the update at the same height, grounded, with vertical
    velocity 0 and a full budget.  The actor and the platforms are those
    of the game: their doubles are multiples of 1/2 of magnitude at most
    4096, on which the sums and differences of the update are exact. *)
Theorem standing_is_stable (input : Input) (platforms : list Platform)
    (temp : option Platform) (p : Player) (plat : Platform) :
  exact_player p ->
  Forall exact_platform (all_platforms platforms temp) ->
  In plat (all_platforms platforms temp) ->
  bottom p == y plat ->
  velocity_y p == 0 ->
  jump_fires input p = false ->
  x plat < x p + velocity_x (update_velocity input p) + width p ->
  x p + velocity_x (update_velocity input p) < x plat + width plat ->
  0 <= y p -> y plat <= world_height p ->
  on_ground (Player_update input platforms temp p) = true
  /\ velocity_y (Player_update input platforms temp p) = 0
  /\ y (Player_update input platforms temp p) == y p
  /\ jumps_available (Player_update input platforms temp p) = 2%Z.
Proof.
  intros _ _ Hin Hstand Hrest Hno Hleft Hright Hy Hworld.
  unfold bottom in Hstand.
  destruct (update_velocity_base input p) as (Hb & _).
  assert (Hyq : y (update_velocity input p) = y p) by (rewrite Hb; reflexivity).
  assert (Hhq : height (update_velocity input p) = height p)
    by (rewrite Hb; reflexivity).
  assert (Hxq : x (update_velocity input p) = x p) by (rewrite Hb; reflexivity).
  assert (Hwq : width (update_velocity input p) = width p)
    by (rewrite Hb; reflexivity).
  pose proof (update_velocity_no_jump input p Hno) as Hvq.
  assert (Hpass : passes_landing_test (update_velocity input p) plat).
  { unfold passes_landing_test. rewrite Hyq, Hhq, Hxq, Hwq, Hvq.
    unfold gravity. repeat split; lra. }
  destruct (lands_on_highest input platforms temp p)
    as (on & Hon & Hpon & Hmin & _ & Hg & Hv & Hbot).
  { exists plat. split; assumption. }
  pose proof (Hmin plat Hin Hpass) as Hle.
  destruct Hpon as (_ & Hab & _). rewrite Hyq, Hhq in Hab.
  split; [exact Hg |]. split; [exact Hv |]. split.
  - assert (Hb' : bottom (Player_update input platforms temp p) == y on).
    { apply Hbot; [exact Hy | lra]. }
    unfold bottom in Hb'.
    destruct (Player_update_fixed input platforms temp p) as (_ & Fh & _).
    rewrite Fh in Hb'. lra.
  - apply Player_update_grounded. exact Hg.
Qed.

(** *** Horizontal motion *)





(** *** The order of the platforms *)

Lemma Player_equiv_refl (p : Player) : Player_equiv p p.
Proof. unfold Player_equiv. repeat split; reflexivity. Qed.

(** Solve a goal [Player_equiv _ _] from a hypothesis of that shape once
    the border cases are fixed. *)
Ltac equiv_cases H :=
  unfold Player_equiv in *; simpl in *;
  destruct H as (Ex & Ey & Ew & Eh & Evx & Evy & Eg & Eww & Ewh & Ej
                 & Esx & Esy & El);
  first [ exfalso; lra
        | repeat split; first [assumption | reflexivity | lra] ].

Lemma border_left_equiv (p1 p2 : Player) :
  Player_equiv p1 p2 -> Player_equiv (border_left p1) (border_left p2).
Proof.
  intros H.
  destruct (border_left_cases p1) as [[H1 ->] | [H1 ->]];
    destruct (border_left_cases p2) as [[H2 ->] | [H2 ->]];
    equiv_cases H.
Qed.

Lemma border_right_equiv (p1 p2 : Player) :
  Player_equiv p1 p2 -> Player_equiv (border_right p1) (border_right p2).
Proof.
  intros H.
  destruct (border_right_cases p1) as [[H1 ->] | [H1 ->]];
    destruct (border_right_cases p2) as [[H2 ->] | [H2 ->]];
    equiv_cases H.
Qed.

Lemma border_top_equiv (p1 p2 : Player) :
  Player_equiv p1 p2 -> Player_equiv (border_top p1) (border_top p2).
Proof.
  intros H.
  destruct (border_top_cases p1) as [[H1 ->] | [H1 ->]];
    destruct (border_top_cases p2) as [[H2 ->] | [H2 ->]];
    equiv_cases H.
Qed.

Lemma border_bottom_equiv (p1 p2 : Player) :
  Player_equiv p1 p2 -> Player_equiv (border_bottom p1) (border_bottom p2).
Proof.
  intros H.
  destruct (border_bottom_cases p1) as [[H1 ->] | [H1 ->]];
    destruct (border_bottom_cases p2) as [[H2 ->] | [H2 ->]];
    equiv_cases H.
Qed.

Lemma refill_jumps_equiv (p1 p2 : Player) :
  Player_equiv p1 p2 -> Player_equiv (refill_jumps p1) (refill_jumps p2).
Proof.
  intros H. unfold refill_jumps.
  assert (Eg0 : on_ground p1 = on_ground p2) by apply H.
  rewrite <- Eg0. destruct (on_ground p1); [| exact H].
  equiv_cases H.
Qed.

Lemma finish_equiv (p1 p2 : Player) :
  Player_equiv p1 p2 ->
  Player_equiv (refill_jumps (world_borders p1))
    (refill_jumps (world_borders p2)).
Proof.
  intros H. unfold world_borders.
  apply refill_jumps_equiv, border_bottom_equiv, border_top_equiv,
    border_right_equiv, border_left_equiv. exact H.
Qed.

Lemma commit_landed_equiv (q : Player) (on1 on2 : Platform) :
  y on1 == y on2 ->
  Player_equiv (commit (landed q on1)) (commit (landed q on2)).
Proof.
  intros Htop. unfold Player_equiv.
  cbn [commit landed self next_x next_y on_any_platform set_x set_y
         set_on_ground set_velocity_y Player_base x y width height
         velocity_x velocity_y on_ground world_width world_height
         jumps_available spawn_x spawn_y jump_in_progress].
  repeat split; try reflexivity. rewrite Htop. reflexivity.
Qed.

(** The result of an update does not depend on the order in which the
    platforms are visited: two snapshots with the same platforms give the
    same actor, field by field. *)
Theorem platform_order_irrelevant (input : Input)
    (platforms1 platforms2 : list Platform) (temp1 temp2 : option Platform)
    (p : Player) :
  Permutation (all_platforms platforms1 temp1)
    (all_platforms platforms2 temp2) ->
  Player_equiv (Player_update input platforms1 temp1 p)
    (Player_update input platforms2 temp2 p).
Proof.
  intros Hperm. unfold Player_update, update_collide.
  generalize (update_velocity input p). intros q.
  destruct (loop_state_resolve q (all_platforms platforms1 temp1))
    as [Hnone1 | on1 Hin1 Hon1 Hmin1];
    destruct (loop_state_resolve q (all_platforms platforms2 temp2))
      as [Hnone2 | on2 Hin2 Hon2 Hmin2].
  - apply Player_equiv_refl.
  - exfalso. apply (Hnone1 on2); [| exact Hon2].
    apply (Permutation_in _ (Permutation_sym Hperm)). exact Hin2.
  - exfalso. apply (Hnone2 on1); [| exact Hon1].
    apply (Permutation_in _ Hperm). exact Hin1.
  - apply finish_equiv, commit_landed_equiv.
    apply Qle_antisym.
    + apply Hmin1; [| exact Hon2].
      apply (Permutation_in _ (Permutation_sym Hperm)). exact Hin2.
    + apply Hmin2; [| exact Hon1].
      apply (Permutation_in _ Hperm). exact Hin1.
Qed.

(** ** Further properties of the transient platform *)


Lemma held_flag_run (ticks : list Tick) (g : GameWindow) :
  Forall create_held ticks -> down_pressed_last_frame g = true ->
  placements g ticks = 0%nat.
Proof.
  revert g. induction ticks as [| t rest IH]; intros g Hheld Hflag.
  - reflexivity.
  - inversion Hheld as [| t' rest' Ht Hrest]; subst. cbn [placements].
    assert (Hno : places (fst t) (snd t) g = false).
    { unfold places, rising_edge. rewrite Hflag.
      rewrite andb_false_r. reflexivity. }
    rewrite Hno. cbn [Nat.add]. apply (IH _ Hrest).
    rewrite GameWindow_update_flag. exact Ht.
Qed.

(** The create key is edge-triggered: after every frame the edge flag is
    the state of the key in that frame, and along any run of frames with
    the key held the creation branch is taken at most once. *)
Theorem create_key_edge_triggered :
  (forall (input : Input) (clock : Millis) (g : GameWindow),
      down_pressed_last_frame (GameWindow_update input clock g)
      = down input KB_DOWN)
  /\ (forall (g : GameWindow) (hold : list Tick),
         Forall create_held hold -> (placements g hold <= 1)%nat).
Proof.
  split; [exact GameWindow_update_flag |].
  intros g hold. revert g.
  induction hold as [| t rest IH]; intros g Hheld.
  - cbn [placements]. lia.
  - inversion Hheld as [| t' rest' Ht Hrest]; subst. cbn [placements].
    rewrite (held_flag_run rest _ Hrest).
    + destruct (places (fst t) (snd t) g); lia.
    + rewrite GameWindow_update_flag. exact Ht.
Qed.

(** *** The stamps *)

Lemma place_platform_stamps (input : Input) (clock : Millis)
    (g : GameWindow) :
  temp_platform_created g = temp_platform_last_placed g ->
  temp_platform_created (place_platform input clock g)
  = temp_platform_last_placed (place_platform input clock g).
Proof.
  intros Heq.
  destruct (place_platform_cases input clock g)
    as [(_ & _ & _ & ->) | (_ & ->)]; [reflexivity | exact Heq].
Qed.

Lemma GameWindow_update_stamps (input : Input) (clock : Millis)
    (g : GameWindow) :
  temp_platform_created g = temp_platform_last_placed g ->
  temp_platform_created (GameWindow_update input clock g)
  = temp_platform_last_placed (GameWindow_update input clock g).
Proof.
  destruct (GameWindow_update_fixed input clock g)
    as (_ & _ & _ & -> & ->).
  apply place_platform_stamps.
Qed.

Lemma reachable_stamps (g : GameWindow) :
  reachable g ->
  temp_platform_created g = temp_platform_last_placed g.
Proof.
  induction 1 as [| input clock g _ IH].
  - reflexivity.
  - apply GameWindow_update_stamps. exact IH.
Qed.

(** The two stamps are written together: a frame keeps them equal, and in
    every state the game reaches the creation stamp equals the last-placed
    stamp. *)
Theorem stamps_agree :
  (forall (input : Input) (clock : Millis) (g : GameWindow),
      temp_platform_created g = temp_platform_last_placed g ->
      temp_platform_created (GameWindow_update input clock g)
      = temp_platform_last_placed (GameWindow_update input clock g))
  /\ (forall g : GameWindow,
         reachable g ->
         temp_platform_created g = temp_platform_last_placed g).
Proof.
  split; [exact GameWindow_update_stamps | exact reachable_stamps].
Qed.

Lemma expire_platform_cases (clock : Millis) (g : GameWindow) :
  (temp_platform (expire_platform clock g) = None
   /\ (temp_platform g = None
       \/ (5000 < ulong_sub (ms_expiry clock) (temp_platform_created g))%Z))
  \/ (temp_platform (expire_platform clock g) = temp_platform g
      /\ temp_platform g <> None
      /\ (ulong_sub (ms_expiry clock) (temp_platform_created g) <= 5000)%Z).
Proof.
  unfold expire_platform, has_temp_platform.
  destruct (temp_platform g) as [t |] eqn:Et; cbn [andb].
  - destruct (Z.ltb_spec 5000
                (ulong_sub (ms_expiry clock) (temp_platform_created g)))
      as [Hlt | Hge].
    + left. split; [reflexivity | right; exact Hlt].
    + right. split; [exact Et |]. split; [discriminate | exact Hge].
  - left. split; [exact Et | left; reflexivity].
Qed.

(** The lifetime of the transient platform: a platform that exists when a
    frame ends is at most 5000 ms old at the expiry reading of that frame;
    a platform that exists after the creation step and is at most 5000 ms
    old survives the frame; and one that is older is removed. *)
Theorem platform_lifetime (input : Input) (clock : Millis) (g : GameWindow) :
  let g1 := place_platform input clock g in
  let g' := GameWindow_update input clock g in
  let age := ulong_sub (ms_expiry clock) (temp_platform_created g1) in
  temp_platform_created g' = temp_platform_created g1
  /\ (temp_platform g' <> None -> (age <= 5000)%Z)
  /\ ((age <= 5000)%Z -> temp_platform g' = temp_platform g1)
  /\ ((5000 < age)%Z -> temp_platform g' = None).
Proof.
  cbv zeta.
  destruct (GameWindow_update_fixed input clock g)
    as (_ & _ & -> & -> & _).
  split; [reflexivity |].
  destruct (expire_platform_cases clock (place_platform input clock g))
    as [[-> [Hnone | Hold]] | (-> & Hsome & Hyoung)].
  - split; [intros H; exfalso; apply H; reflexivity |].
    split; [intros _; symmetry; exact Hnone | intros _; reflexivity].
  - split; [intros H; exfalso; apply H; reflexivity |].
    split; [intros H; exfalso; lia | intros _; reflexivity].
  - split; [intros _; exact Hyoung |].
    split; [intros _; reflexivity | intros H; exfalso; lia].
Qed.

(** The lifetime is longer than the cooldown: in a state the game reaches,
    when a frame removes the transient platform the cooldown, read at the
    expiry reading of that frame, is already over. *)
Theorem expired_platform_is_off_cooldown (input : Input) (clock : Millis)
    (g : GameWindow) :
  reachable g ->
  temp_platform (place_platform input clock g) <> None ->
  temp_platform (GameWindow_update input clock g) = None ->
  cooldown_elapsed (ms_expiry clock) (GameWindow_update input clock g).
Proof.
  intros Hg Hsome Hgone.
  pose proof (reachable_stamps _ (reachable_update input clock g Hg)) as Hst.
  unfold cooldown_elapsed. rewrite <- Hst.
  destruct (GameWindow_update_fixed input clock g)
    as (_ & _ & Ft & Fc & _).
  rewrite Fc. rewrite Ft in Hgone. unfold platform_cooldown.
  destruct (expire_platform_cases clock (place_platform input clock g))
    as [[_ [Hnone | Hold]] | (Hkept & _)].
  - exfalso. exact (Hsome Hnone).
  - lia.
  - exfalso. apply Hsome. rewrite <- Hkept. exact Hgone.
Qed.

(** ** The floor platform *)

Lemma tentative_velocity_x (input : Input) (p : Player) :
  - (3) <= velocity_x (update_velocity input p) <= 3.
Proof.
  destruct (update_velocity_values input p) as ([-> | [-> | [-> | ->]]] & _);
    unfold move_speed; lra.
Qed.

(** Above the floor platform an update keeps the actor above it. *)
Lemma Player_update_above_floor (input : Input) (platforms : list Platform)
    (temp : option Platform) (p : Player) :
  level_player p -> inside_world p -> y p <= 900 ->
  In floor_platform (all_platforms platforms temp) ->
  y (Player_update input platforms temp p) <= 900.
Proof.
  intros (Hw & Hh & Hww & Hwh & _) (Hx0 & Hx1 & Hy0 & _) Hy Hfloor.
  rewrite Hw, Hww in Hx1.
  unfold GameWindow_world_width, GameWindow_world_height in *.
  pose proof (tentative_velocity_x input p) as Hvx.
  destruct (update_velocity_base input p) as (Hb & _).
  assert (Hq : y (update_velocity input p) = y p
               /\ height (update_velocity input p) = 50
               /\ x (update_velocity input p) = x p
               /\ width (update_velocity input p) = 50).
  { rewrite Hb. repeat split; assumption. }
  destruct Hq as (Qy & Qh & Qx & Qw).
  destruct (Player_update_fixed input platforms temp p) as (_ & Fh & _).
  assert (Hfloor_passes :
            0 <= velocity_y (update_velocity input p) ->
            900 <= y p + velocity_y (update_velocity input p) ->
            passes_landing_test (update_velocity input p) floor_platform).
  { intros Hdown Hlong.
    unfold passes_landing_test. rewrite Qy, Qh, Qx, Qw.
    unfold floor_platform, Platform_new. cbn [x y width Platform_base].
    repeat split; lra. }
  destruct (update_collide_cases input platforms temp p)
    as [[Hfree Hnone] | (on0 & Hin0 & Hpon0 & _)].
  - (* no platform passes, the floor platform in particular *)
    assert (Hshort : velocity_y (update_velocity input p) < 0
                     \/ y p + velocity_y (update_velocity input p) < 900).
    { destruct (Qlt_le_dec (velocity_y (update_velocity input p)) 0)
        as [Hup | Hdown]; [left; exact Hup |].
      destruct (Qlt_le_dec (y p + velocity_y (update_velocity input p)) 900)
        as [Hshort | Hlong]; [right; exact Hshort |].
      exfalso. exact (Hnone floor_platform Hfloor
                        (Hfloor_passes Hdown Hlong)). }
    unfold Player_update. rewrite Hfree.
    destruct (refill_jumps_fixed
                (world_borders
                   (commit (frame_init (update_velocity input p)))))
      as (-> & _).
    destruct (commit_frame_init input p)
      as (Cy & _ & Ch & _ & Cwh & _).
    destruct (Qlt_le_dec (y p + velocity_y (update_velocity input p)) 0)
      as [Hneg | Hpos].
    + destruct (world_borders_ceiling
                  (commit (frame_init (update_velocity input p))))
        as (-> & _).
      * rewrite Cy. exact Hneg.
      * rewrite Ch, Cwh, Hh, Hwh. lra.
      * lra.
    + destruct (world_borders_keep
                  (commit (frame_init (update_velocity input p))))
        as (-> & _).
      * rewrite Cy. exact Hpos.
      * rewrite Cy, Ch, Cwh, Hh, Hwh.
        destruct Hshort as [Hup | Hshort]; lra.
      * rewrite Cy. destruct Hshort as [Hup | Hshort]; lra.
  - (* the actor lands on the highest platform that passes *)
    destruct (lands_on_highest input platforms temp p)
      as (on & _ & Hpon & Hmin & _ & _ & _ & Hbot).
    { exists on0. split; assumption. }
    assert (Hon : y on <= 950).
    { destruct Hpon as (Hv & _ & Hc & _). rewrite Qy, Qh in Hc.
      destruct (Qlt_le_dec (y p + velocity_y (update_velocity input p)) 900)
        as [Hshort | Hlong]; [lra |].
      apply (Hmin floor_platform Hfloor). apply Hfloor_passes; assumption. }
    assert (Hb' : bottom (Player_update input platforms temp p) == y on).
    { apply Hbot; [exact Hy0 | rewrite Hwh; lra]. }
    unfold bottom in Hb'. rewrite Fh, Hh in Hb'. lra.
Qed.

(** The floor platform spans the world, so the actor never gets below it:
    in every state the game reaches its [y] is at most 900, i.e. its bottom
    edge is at or above the top of the floor platform. *)
Theorem never_below_floor (g : GameWindow) :
  reachable g ->
  y (player g) <= 900 /\ bottom (player g) <= y floor_platform.
Proof.
  intros Hg.
  assert (Hy : y (player g) <= 900).
  { induction Hg as [| input clock g Hg IH].
    - vm_compute. discriminate.
    - pose proof (reachable_invariant g Hg)
        as (Hlevel & Hin & _ & Hplats & _).
      rewrite GameWindow_update_player, player_before_hazards_eq.
      set (temp := temp_platform
                     (expire_platform clock (place_platform input clock g))).
      destruct (check_obstacles_cases (obstacles g)
                  (Player_update input (platforms g) temp (player g)))
        as [-> | (_ & Hy & _)].
      + apply Player_update_above_floor; try assumption.
        rewrite Hplats. unfold all_platforms. apply in_or_app. left.
        left. reflexivity.
      + rewrite Hy.
        destruct (check_obstacles_fixed (obstacles g)
                    (Player_update input (platforms g) temp (player g)))
          as (_ & _ & _ & _ & _ & _ & -> & _).
        destruct (Player_update_fixed input (platforms g) temp (player g))
          as (_ & _ & _ & _ & _ & ->).
        destruct Hlevel as (_ & _ & _ & _ & _ & ->). vm_compute. discriminate. }
  split; [exact Hy |].
  pose proof (reachable_invariant g Hg) as ((_ & Hh & _) & _).
  unfold bottom. rewrite Hh. unfold floor_platform, Platform_new.
  cbn [y Platform_base]. lra.
Qed.

(** ** A platform placed under a falling actor *)


(** ** Drawing *)

Lemma std_clamp (v hi : double) :
  0 <= hi ->
  0 <= std_max 0 (std_min v hi) /\ std_max 0 (std_min v hi) <= hi
  /\ (0 <= v -> v <= hi -> std_max 0 (std_min v hi) == v)
  /\ (v < 0 -> std_max 0 (std_min v hi) == 0)
  /\ (hi < v -> std_max 0 (std_min v hi) == hi).
Proof.
  intros Hhi. unfold std_max, std_min.
  destruct (dlt_spec hi v) as [H1 | H1].
  - destruct (dlt_spec 0 hi) as [H2 | H2];
      repeat split; intros; lra.
  - destruct (dlt_spec 0 v) as [H2 | H2];
      repeat split; intros; lra.
Qed.

Lemma camera_eq (g : GameWindow) :
  camera g
  = (std_max 0
       (std_min (x (player g) + width (player g) / 2 - 400) 1200),
     std_max 0
       (std_min (y (player g) + height (player g) / 2 - 300) 400)).
Proof. reflexivity. Qed.

(** The camera never shows anything outside the world, and it is centred
    on the actor wherever that keeps the view inside the world. *)
Theorem camera_in_world (g : GameWindow) :
  (0 <= fst (camera g) /\ fst (camera g) <= 2000 - 800
   /\ 0 <= snd (camera g) /\ snd (camera g) <= 1000 - 600)
  /\ (400 <= x (player g) + width (player g) / 2 ->
      x (player g) + width (player g) / 2 <= 1600 ->
      fst (camera g) == x (player g) + width (player g) / 2 - 400)
  /\ (300 <= y (player g) + height (player g) / 2 ->
      y (player g) + height (player g) / 2 <= 700 ->
      snd (camera g) == y (player g) + height (player g) / 2 - 300).
Proof.
  rewrite camera_eq. cbn [fst snd].
  destruct (std_clamp (x (player g) + width (player g) / 2 - 400) 1200)
    as (Hx0 & Hx1 & Hxc & _); [lra |].
  destruct (std_clamp (y (player g) + height (player g) / 2 - 300) 400)
    as (Hy0 & Hy1 & Hyc & _); [lra |].
  split; [repeat split; lra |]. split.
  - intros H0 H1. rewrite Hxc by lra. reflexivity.
  - intros H0 H1. rewrite Hyc by lra. reflexivity.
Qed.

(** In every state the game reaches the whole box of the actor is on the
    screen. *)
Theorem actor_on_screen (g : GameWindow) :
  reachable g ->
  Forall (on_screen (GameWindow_draw g)) (corners (Player_draw (player g))).
Proof.
  intros Hg. apply reachable_invariant in Hg.
  destruct Hg as ((Hw & Hh & Hww & Hwh & _) & (Hx0 & Hx1 & Hy0 & Hy1) & _).
  rewrite Hw, Hww in Hx1. rewrite Hh, Hwh in Hy1.
  unfold GameWindow_world_width, GameWindow_world_height in *.
  unfold on_screen, GameWindow_draw, Player_draw, corners.
  cbn [translate_x translate_y]. rewrite camera_eq. cbn [fst snd].
  rewrite Hw, Hh.
  change (inject_Z window_width) with 800.
  change (inject_Z window_height) with 600.
  assert (E25 : 50 / 2 == 25) by reflexivity.
  destruct (std_clamp (x (player g) + 50 / 2 - 400) 1200)
    as (_ & _ & Hxc & Hxl & Hxh); [lra |].
  destruct (std_clamp (y (player g) + 50 / 2 - 300) 400)
    as (_ & _ & Hyc & Hyl & Hyh); [lra |].
  assert (Hcx : std_max 0 (std_min (x (player g) + 50 / 2 - 400) 1200)
                <= x (player g)
                /\ x (player g) + 50
                   <= std_max 0 (std_min (x (player g) + 50 / 2 - 400) 1200)
                      + 800).
  { destruct (Qlt_le_dec (x (player g) + 50 / 2 - 400) 0) as [Hl | Hl];
      [rewrite (Hxl Hl); lra |].
    destruct (Qlt_le_dec 1200 (x (player g) + 50 / 2 - 400)) as [Hr | Hr];
      [rewrite (Hxh Hr); lra |].
    rewrite (Hxc Hl Hr). lra. }
  assert (Hcy : std_max 0 (std_min (y (player g) + 50 / 2 - 300) 400)
                <= y (player g)
                /\ y (player g) + 50
                   <= std_max 0 (std_min (y (player g) + 50 / 2 - 300) 400)
                      + 600).
  { destruct (Qlt_le_dec (y (player g) + 50 / 2 - 300) 0) as [Hl | Hl];
      [rewrite (Hyl Hl); lra |].
    destruct (Qlt_le_dec 400 (y (player g) + 50 / 2 - 300)) as [Hr | Hr];
      [rewrite (Hyh Hr); lra |].
    rewrite (Hyc Hl Hr). lra. }
  revert Hcx Hcy.
  generalize (std_max 0 (std_min (x (player g) + 50 / 2 - 400) 1200)).
  generalize (std_max 0 (std_min (y (player g) + 50 / 2 - 300) 400)).
  intros cy cx Hcx Hcy.
  repeat apply Forall_cons; try apply Forall_nil; cbn [fst snd];
    repeat split; lra.
Qed.

(** The spike that is drawn lies inside the box that is tested for
    overlap, with its apex above the middle of the base. *)
Theorem spike_inside_box (o : Obstacle) :
  0 <= width o -> 0 <= height o ->
  Forall (fun pt : double * double =>
            x o <= fst pt /\ fst pt <= x o + width o
            /\ y o <= snd pt /\ snd pt <= y o + height o)
    (corners (Obstacle_draw o))
  /\ nth 1 (corners (Obstacle_draw o)) (0, 0)
     = (x o + width o / 2, y o).
Proof.
  intros Hw Hh.
  assert (Hhalf : 0 <= width o / 2 /\ width o / 2 <= width o).
  { split.
    - apply Qle_shift_div_l; [reflexivity | lra].
    - apply Qle_shift_div_r; [reflexivity | lra]. }
  split; [| reflexivity].
  unfold Obstacle_draw, corners.
  repeat apply Forall_cons; try apply Forall_nil; cbn [fst snd];
    repeat split; lra.
Qed.

(** ** Free fall *)

Lemma world_borders_airborne_y (p : Player) :
  on_ground (world_borders p) = false -> 0 <= y p ->
  y (world_borders p) = y p.
Proof.
  borders p; intros Hair Hy; try discriminate; try reflexivity;
    exfalso; lra.
Qed.

(** One tick in the air without a jump: gravity is added to the velocity
    and the new velocity to the position. *)
Lemma airborne_step (p : Player) (s : Step) :
  jump_released s -> on_ground (Player_step p s) = false ->
  0 <= y p -> 0 <= velocity_y p ->
  velocity_y (Player_step p s) = velocity_y p + gravity
  /\ y (Player_step p s) = y p + (velocity_y p + gravity).
Proof.
  unfold jump_released. intros Hrel Hair Hy Hv.
  assert (Hno : jump_fires (step_input s) p = false).
  { unfold jump_fires. rewrite Hrel. reflexivity. }
  pose proof (update_velocity_no_jump (step_input s) p Hno) as Hq.
  rewrite Player_step_eq in *. revert Hair. unfold Player_update.
  set (c := commit (update_collide (step_input s) (step_platforms s)
                      (step_temp s) p)).
  destruct (refill_jumps_fixed (world_borders c)) as (-> & _ & -> & -> & _).
  intros Hair.
  destruct (world_borders_airborne c Hair) as [Hc ->].
  assert (Hfree : update_collide (step_input s) (step_platforms s)
                    (step_temp s) p
                  = frame_init (update_velocity (step_input s) p)).
  { destruct (update_collide_cases (step_input s) (step_platforms s)
                (step_temp s) p) as [[Hf _] | (on & _ & _ & Hf)];
      [exact Hf |].
    exfalso. subst c. rewrite Hf in Hc. discriminate. }
  destruct (commit_frame_init (step_input s) p)
    as (Cy & _ & _ & _ & _ & _ & Cv & _).
  subst c. rewrite Hfree in *. rewrite Cv, Hq. split; [reflexivity |].
  rewrite world_borders_airborne_y.
  - rewrite Cy, Hq. reflexivity.
  - exact Hair.
  - rewrite Cy, Hq. unfold gravity. lra.
Qed.

Lemma world_borders_airborne_bottom (p : Player) :
  on_ground (world_borders p) = false ->
  bottom (world_borders p) <= world_height (world_borders p).
Proof.
  unfold bottom.
  borders p; intros Hair; try discriminate; lra.
Qed.

(** A tick that ends in the air ends above the lower border. *)
Lemma airborne_step_bottom (p : Player) (s : Step) :
  on_ground (Player_step p s) = false ->
  bottom (Player_step p s) <= world_height p.
Proof.
  rewrite Player_step_eq.
  destruct (Player_update_fixed (step_input s) (step_platforms s)
              (step_temp s) p) as (_ & _ & _ & <- & _).
  unfold Player_update, bottom.
  set (c := commit (update_collide (step_input s) (step_platforms s)
                      (step_temp s) p)).
  destruct (refill_jumps_fixed (world_borders c))
    as (-> & _ & _ & -> & _ & -> & _).
  apply world_borders_airborne_bottom.
Qed.

Lemma airborne_run_bottom (steps : list Step) (p : Player) :
  stays_airborne p steps -> steps <> [] ->
  bottom (Player_run p steps) <= world_height p.
Proof.
  revert p. induction steps as [| s rest IH]; intros p Hair Hne;
    [congruence |].
  cbn [stays_airborne] in Hair. destruct Hair as [Hair1 Hair2].
  rewrite Player_run_cons. destruct rest as [| s' rest'].
  - apply airborne_step_bottom. exact Hair1.
  - apply Qle_trans with (world_height (Player_step p s)).
    + apply (IH _ Hair2). discriminate.
    + rewrite Player_step_eq.
      destruct (Player_update_fixed (step_input s) (step_platforms s)
                  (step_temp s) p) as (_ & _ & _ & -> & _).
      apply Qle_refl.
Qed.

Lemma inject_succ (n : nat) :
  inject_Z (Z.of_nat (S n)) == inject_Z (Z.of_nat n) + 1.
Proof.
  rewrite Nat2Z.inj_succ. unfold Z.succ. rewrite inject_Z_plus. reflexivity.
Qed.

(** The law of free fall on the tick grid: along [n] ticks that the actor
    spends in the air, falling, with the jump key up, its vertical velocity
    grows by [gravity] per tick and its position by the velocities summed:
    [y + n * velocity_y + n * (n + 1) / 4]; the run ends above the lower
    border of the world.  The actor and the platforms are those of the
    game: their doubles are multiples of 1/2 of magnitude at most 4096.
    As the fall starts at [y >= 0] and stays above the lower border, it
    lasts fewer than 200 ticks and all values along it are multiples of
    1/2 below 16384, on which the sums of the update are exact. *)
Theorem free_fall (steps : list Step) (p : Player) :
  exact_player p ->
  Forall exact_step steps ->
  Forall jump_released steps ->
  stays_airborne p steps ->
  0 <= y p -> 0 <= velocity_y p ->
  velocity_y (Player_run p steps)
  == velocity_y p + inject_Z (Z.of_nat (length steps)) * gravity
  /\ y (Player_run p steps)
     == y p + inject_Z (Z.of_nat (length steps)) * velocity_y p
        + inject_Z (Z.of_nat (length steps))
          * (inject_Z (Z.of_nat (length steps)) + 1) / 4
  /\ (steps <> [] -> bottom (Player_run p steps) <= world_height p).
Proof.
  intros _ _ Hrel Hair Hy Hv.
  cut (velocity_y (Player_run p steps)
       == velocity_y p + inject_Z (Z.of_nat (length steps)) * gravity
       /\ y (Player_run p steps)
          == y p + inject_Z (Z.of_nat (length steps)) * velocity_y p
             + inject_Z (Z.of_nat (length steps))
               * (inject_Z (Z.of_nat (length steps)) + 1) / 4).
  { intros [Hvel Hpos]. split; [exact Hvel |]. split; [exact Hpos |].
    apply airborne_run_bottom. exact Hair. }
  revert p Hrel Hair Hy Hv.
  induction steps as [| s rest IH]; intros p Hrel Hair Hy Hv.
  - cbn [length Player_run fold_left]. change (inject_Z (Z.of_nat 0)) with 0.
    split; symmetry; field.
  - inversion Hrel as [| s' rest' Hs Hrest]; subst.
    cbn [stays_airborne] in Hair. destruct Hair as [Hair1 Hair2].
    destruct (airborne_step p s Hs Hair1 Hy Hv) as [Ev Ey].
    rewrite Player_run_cons.
    destruct (IH (Player_step p s) Hrest Hair2) as [IHv IHy].
    + rewrite Ey. unfold gravity. lra.
    + rewrite Ev. unfold gravity. lra.
    + rewrite IHv, IHy, Ev, Ey. cbn [length]. rewrite inject_succ.
      unfold gravity. split; field.
Qed.

(** ** Instances *)

(** Integers of small magnitude are exact. *)
Ltac exact_value :=
  match goal with
  | |- exact ?v =>
      let n := eval vm_compute in (Qnum v) in
      apply (exact_Z n); lia
  end.

Ltac exact_values :=
  repeat match goal with
         | |- exact _ /\ _ => split
         end;
  exact_value.

(** The ledge is the only platform of the level that passes the landing
    test for [falling_player]; the actor ends on it. *)
Lemma landing_resolution_witness :
  bottom (Player_update no_keys level_platforms None falling_player)
  == y ledge.
Proof.
  destruct (proj1 landing_resolution no_keys level_platforms None
              falling_player ledge) as (_ & _ & H).
  - simpl. tauto.
  - unfold passes_landing_test. repeat split; vm_compute; congruence.
  - apply H.
    + apply (proj1 (Forall_forall
                      (fun other : Platform =>
                         passes_landing_test
                           (update_velocity no_keys falling_player) other ->
                         y ledge <= y other)
                      (all_platforms level_platforms None))).
      unfold all_platforms, level_platforms.
      repeat apply Forall_cons; try apply Forall_nil;
        first [ solve [ intros _; apply Qle_bool_imp_le; vm_compute;
                        reflexivity ]
              | intros (_ & Hab & _); exfalso; apply Qle_bool_iff in Hab;
                vm_compute in Hab; discriminate ].
    + vm_compute. discriminate.
    + vm_compute. discriminate.
Defined.

(** The first frame of the game, with the left key held. *)
Lemma world_clamp_witness :
  0 <= x (player (GameWindow_update (only KB_LEFT) (at_ms 16%Z)
                    GameWindow_new))
  /\ y (player (GameWindow_update (only KB_LEFT) (at_ms 16%Z)
                  GameWindow_new)) <= 1000 - 50.
Proof.
  destruct (proj2 world_clamp
              (GameWindow_update (only KB_LEFT) (at_ms 16%Z) GameWindow_new))
    as (_ & _ & _ & _ & Hx & _ & _ & Hy).
  - apply reachable_update. apply reachable_new.
  - split; assumption.
Defined.

(** The first frame of the game, with the jump key held. *)
Lemma jump_budget_bounds_witness :
  (0 <= jumps_available
          (player (GameWindow_update (only KB_UP) (at_ms 16%Z)
                     GameWindow_new)) <= 2)%Z.
Proof.
  apply (proj2 (proj2 (proj2 (proj2 jump_budget_bounds)))).
  apply reachable_update. apply reachable_new.
Defined.

(** An actor with an empty budget standing on the floor platform. *)
Lemma grounding_restores_budget_witness :
  jumps_available
    (Player_update no_keys scenario_platforms None
       (set_jumps_available resting_player 0)) = 2%Z.
Proof.
  apply (proj1 grounding_restores_budget). vm_compute. reflexivity.
Defined.


(** Standing on the floor platform inside the first spike. *)
Lemma hazard_respawn_witness :
  y (player (GameWindow_update no_keys (at_ms 16%Z)
               (game_with player_at_spike None 0%Z))) = 100.
Proof.
  apply (hazard_respawn no_keys (at_ms 16%Z)
           (game_with player_at_spike None 0%Z)).
  exists (Obstacle_new 500 920 40). split.
  - simpl. tauto.
  - vm_compute. reflexivity.
Defined.

(** A second press of the create key three seconds after a placement. *)
Lemma transient_platform_exclusive_witness :
  temp_platform_created
    (GameWindow_update (only KB_DOWN) (at_ms 9000%Z)
       (game_with resting_player
          (Some (new_temp_platform resting_player)) 6000%Z))
  = 6000%Z.
Proof.
  apply (proj2 transient_platform_exclusive
           (game_with resting_player
              (Some (new_temp_platform resting_player)) 6000%Z)
           (only KB_DOWN) (at_ms 9000%Z)
           (new_temp_platform resting_player)); reflexivity.
Defined.

(** A platform placed in the first frame at 6000 ms and removed in the
    second at 12000 ms; the create key pressed again at 12500 ms places
    the next one. *)
Lemma transient_platform_creation_witness :
  exists t : Platform,
    temp_platform
      (place_platform (only KB_DOWN) (at_ms 12500%Z)
         (play GameWindow_new
            [(only KB_DOWN, at_ms 6000%Z); (no_keys, at_ms 12000%Z)]))
    = Some t
    /\ temp_platform_last_placed
         (place_platform (only KB_DOWN) (at_ms 12500%Z)
            (play GameWindow_new
               [(only KB_DOWN, at_ms 6000%Z); (no_keys, at_ms 12000%Z)]))
       = 12500%Z.
Proof.
  destruct (proj1 (proj2 (proj2 (proj2
              (transient_platform_creation
                 [(only KB_DOWN, at_ms 6000%Z); (no_keys, at_ms 12000%Z)]
                 (only KB_DOWN) (at_ms 12500%Z))))))
    as (t & Ht & _ & _ & _ & _ & _ & _ & Hl).
  - split; [reflexivity |]. split; [reflexivity |].
    split; [vm_compute; reflexivity | vm_compute; discriminate].
  - exists t. split; [exact Ht | exact Hl].
Defined.

(** Two boxes that share the edge [x = 50]. *)
Lemma rects_overlap_strict_witness :
  rects_overlap (mkObjekt 0 0 50 50) (mkObjekt 50 0 40 40) = false.
Proof.
  apply (proj2 (rects_overlap_strict (mkObjekt 0 0 50 50)
                  (mkObjekt 50 0 40 40))).
  left. vm_compute. reflexivity.
Defined.

(** An actor rising through the upper border. *)
Lemma ceiling_clamp_asymmetric_witness :
  y (Player_update no_keys level_platforms None rising_player) = 0
  /\ velocity_y (Player_update no_keys level_platforms None rising_player)
     < 0
  /\ on_ground (Player_update no_keys level_platforms None rising_player)
     = false.
Proof.
  destruct (proj1 (ceiling_clamp_asymmetric no_keys level_platforms None
                     rising_player)) as (Hy & _ & _ & H).
  - vm_compute. discriminate.
  - vm_compute. reflexivity.
  - destruct H as (_ & Hv & Hg); [vm_compute; discriminate |].
    repeat split; assumption.
Defined.

(** A 50x50 box overlaps itself. *)
Lemma rects_overlap_self_witness :
  rects_overlap (mkObjekt 0 0 50 50) (mkObjekt 0 0 50 50) = true.
Proof.
  apply (proj2 (rects_overlap_self (mkObjekt 0 0 50 50)
                  (exact_box 0 0 50 50 _ eq_refl ltac:(lia) ltac:(lia)
                     ltac:(lia) ltac:(lia)))).
  split; reflexivity.
Defined.

(** The first frame of the game: the actor is far from every spike. *)
Lemma no_overlap_no_respawn_witness :
  player (GameWindow_update no_keys (at_ms 16%Z) GameWindow_new)
  = player_before_hazards no_keys (at_ms 16%Z) GameWindow_new.
Proof.
  apply (no_overlap_no_respawn no_keys (at_ms 16%Z) GameWindow_new).
  intros obstacle Hin. simpl in Hin.
  destruct Hin as [<- | [<- | [<- | [<- | []]]]]; vm_compute; reflexivity.
Defined.

(** The first spike and the actor after the first frame. *)
Lemma reachable_clear_of_obstacles_witness :
  rects_overlap
    (player (GameWindow_update no_keys (at_ms 16%Z) GameWindow_new))
    (Obstacle_new 500 920 40) = false.
Proof.
  apply (reachable_clear_of_obstacles
           (GameWindow_update no_keys (at_ms 16%Z) GameWindow_new)).
  - apply reachable_update. apply reachable_new.
  - cbn [obstacles]. rewrite (proj1 (proj2 (GameWindow_update_fixed _ _ _))).
    simpl. tauto.
Defined.

(** An actor rising below the ledge passes it. *)
Lemma platforms_one_way_witness :
  on_ground
    (Player_update no_keys level_platforms None
       (set_y rising_player 700)) = false.
Proof.
  refine (proj1 (proj2 (platforms_one_way no_keys level_platforms None
                          (set_y rising_player 700) _) _ _)).
  - vm_compute. reflexivity.
  - vm_compute. discriminate.
  - vm_compute. discriminate.
Defined.

(** A jump from the floor platform. *)
Lemma jump_takes_off_witness :
  velocity_y (Player_update (only KB_UP) scenario_platforms None
                resting_player)
  = jump_strength + gravity.
Proof.
  apply (jump_takes_off (only KB_UP) scenario_platforms None resting_player).
  - reflexivity.
  - vm_compute. discriminate.
  - vm_compute. discriminate.
Defined.

(** A jump in free fall costs one unit. *)
Lemma budget_only_refilled_on_ground_witness :
  jumps_available
    (Player_update (only KB_UP) level_platforms None falling_player)
  = (if jump_fires (only KB_UP) falling_player
     then (jumps_available falling_player - 1)%Z
     else jumps_available falling_player).
Proof.
  apply (proj1 (budget_only_refilled_on_ground (only KB_UP) level_platforms
                  None falling_player)).
  vm_compute. reflexivity.
Defined.


(** The actor at rest on the floor platform stays there. *)
Lemma standing_is_stable_witness :
  y (Player_update no_keys scenario_platforms None resting_player)
  == y resting_player.
Proof.
  apply (standing_is_stable no_keys scenario_platforms None resting_player
           floor_platform).
  - unfold exact_player. exact_values.
  - apply Forall_cons; [| apply Forall_nil].
    unfold exact_platform. exact_values.
  - left. reflexivity.
  - reflexivity.
  - reflexivity.
  - reflexivity.
  - vm_compute. reflexivity.
  - vm_compute. reflexivity.
  - vm_compute. discriminate.
  - vm_compute. discriminate.
Defined.


(** The ledge and the floor platform in either order. *)
Lemma platform_order_irrelevant_witness :
  Player_equiv
    (Player_update no_keys [ledge; floor_platform] None falling_player)
    (Player_update no_keys [floor_platform; ledge] None falling_player).
Proof.
  apply (platform_order_irrelevant no_keys [ledge; floor_platform]
           [floor_platform; ledge] None None falling_player).
  apply perm_swap.
Defined.

(** Two frames with the create key held. *)
Lemma create_key_edge_triggered_witness :
  (placements GameWindow_new
     [(only KB_DOWN, at_ms 6000%Z); (only KB_DOWN, at_ms 12000%Z)] <= 1)%nat.
Proof.
  apply (proj2 create_key_edge_triggered).
  repeat constructor.
Defined.

(** The stamps after a placement in the first frame. *)
Lemma stamps_agree_witness :
  temp_platform_created
    (GameWindow_update (only KB_DOWN) (at_ms 6000%Z) GameWindow_new)
  = temp_platform_last_placed
      (GameWindow_update (only KB_DOWN) (at_ms 6000%Z) GameWindow_new).
Proof.
  apply (proj2 stamps_agree). apply reachable_update. apply reachable_new.
Defined.

(** A platform placed at 6000 ms is gone in a frame at 12000 ms. *)
Lemma platform_lifetime_witness :
  temp_platform
    (GameWindow_update no_keys (at_ms 12000%Z)
       (game_with resting_player
          (Some (new_temp_platform resting_player)) 6000%Z))
  = None.
Proof.
  apply (proj2 (proj2 (proj2
           (platform_lifetime no_keys (at_ms 12000%Z)
              (game_with resting_player
                 (Some (new_temp_platform resting_player)) 6000%Z))))).
  vm_compute. reflexivity.
Defined.

(** The same in the game: placed in the first frame at 6000 ms, removed in
    the second at 12000 ms, and the cooldown is over by then. *)
Lemma expired_platform_is_off_cooldown_witness :
  cooldown_elapsed (ms_expiry (at_ms 12000%Z))
    (GameWindow_update no_keys (at_ms 12000%Z)
       (GameWindow_update (only KB_DOWN) (at_ms 6000%Z) GameWindow_new)).
Proof.
  apply (expired_platform_is_off_cooldown no_keys (at_ms 12000%Z)
           (GameWindow_update (only KB_DOWN) (at_ms 6000%Z) GameWindow_new)).
  - apply reachable_update. apply reachable_new.
  - vm_compute. discriminate.
  - vm_compute. reflexivity.
Defined.

(** The actor after the first frame. *)
Lemma never_below_floor_witness :
  y (player (GameWindow_update no_keys (at_ms 16%Z) GameWindow_new)) <= 900.
Proof.
  apply (never_below_floor
           (GameWindow_update no_keys (at_ms 16%Z) GameWindow_new)).
  apply reachable_update. apply reachable_new.
Defined.


(** The camera follows an actor in the middle of the level. *)
Lemma camera_in_world_witness :
  fst (camera (game_with player_at_spike None 0%Z))
  == x (player (game_with player_at_spike None 0%Z))
     + width (player (game_with player_at_spike None 0%Z)) / 2 - 400.
Proof.
  apply (proj1 (proj2 (camera_in_world
                         (game_with player_at_spike None 0%Z)))).
  - vm_compute. discriminate.
  - vm_compute. discriminate.
Defined.

(** The actor after the first frame is on the screen. *)
Lemma actor_on_screen_witness :
  Forall
    (on_screen
       (GameWindow_draw
          (GameWindow_update no_keys (at_ms 16%Z) GameWindow_new)))
    (corners
       (Player_draw
          (player (GameWindow_update no_keys (at_ms 16%Z) GameWindow_new)))).
Proof.
  apply actor_on_screen. apply reachable_update. apply reachable_new.
Defined.

(** The first spike of the level. *)
Lemma spike_inside_box_witness :
  nth 1 (corners (Obstacle_draw (Obstacle_new 500 920 40))) (0, 0)
  = (x (Obstacle_new 500 920 40) + width (Obstacle_new 500 920 40) / 2,
     y (Obstacle_new 500 920 40)).
Proof.
  apply (spike_inside_box (Obstacle_new 500 920 40));
    vm_compute; discriminate.
Defined.

(** The doubles after the first frame. *)
Lemma reachable_doubles_exact_witness :
  velocity_y (player (GameWindow_update no_keys (at_ms 16%Z) GameWindow_new))
  <= 31.
Proof.
  apply (reachable_doubles_exact
           (GameWindow_update no_keys (at_ms 16%Z) GameWindow_new)).
  apply reachable_update. apply reachable_new.
Defined.

(** The first two ticks of the landing scenario. *)
Lemma free_fall_witness :
  velocity_y (Player_run scenario_start [release_jump; release_jump])
  == velocity_y scenario_start
     + inject_Z (Z.of_nat (length [release_jump; release_jump])) * gravity.
Proof.
  apply (free_fall [release_jump; release_jump] scenario_start).
  - unfold exact_player. exact_values.
  - repeat apply Forall_cons; try apply Forall_nil;
      unfold exact_platform; exact_values.
  - repeat constructor.
  - vm_compute. repeat split.
  - vm_compute. discriminate.
  - vm_compute. discriminate.
Defined.
